(** * airtable-postgres: the webhook that mirrors Airtable records in Postgres

    A shallow embedding of [src/main.py].  The pure part of the module (the
    field map, the value list, the two query builders) is translated function
    by function.  The part that talks to psycopg2 is written in a small
    state-and-exception monad over a model of one connection. *)

From Stdlib Require Import String Ascii List ZArith Bool Lia.
From stdpp Require Import base option list gmap strings fin_maps.

Import ListNotations.
Local Open Scope string_scope.
Local Open Scope list_scope.

(** ** Values carried by a payload

    [fields: Dict[str, Any]] holds whatever the JSON body held: [None],
    booleans, integers, floats (kept as their binary64 bit pattern), strings,
    and nested lists and objects.  The program never inspects them. *)

#[local] Set Warnings "-register-all".

Inductive value : Type :=
  | VNone
  | VBool (b : bool)
  | VInt (z : Z)
  | VFloat (bits : N)
  | VStr (s : string)
  | VList (items : list value)
  | VDict (items : list (string * value)).

Fixpoint value_eqb (a b : value) : bool :=
  match a, b with
  | VNone, VNone => true
  | VBool x, VBool y => Bool.eqb x y
  | VInt x, VInt y => Z.eqb x y
  | VFloat x, VFloat y => N.eqb x y
  | VStr x, VStr y => String.eqb x y
  | VList xs, VList ys =>
      (fix go (l1 l2 : list value) : bool :=
         match l1, l2 with
         | [], [] => true
         | x :: l1', y :: l2' => value_eqb x y && go l1' l2'
         | _, _ => false
         end) xs ys
  | VDict xs, VDict ys =>
      (fix go (l1 l2 : list (string * value)) : bool :=
         match l1, l2 with
         | [], [] => true
         | (k1, x) :: l1', (k2, y) :: l2' =>
             String.eqb k1 k2 && value_eqb x y && go l1' l2'
         | _, _ => false
         end) xs ys
  | _, _ => false
  end.

(** ** Python dictionaries *)

Module PyDict.

(** A dict whose key order is observed ([FIELD_MAP]): an association list
    in insertion order; assigning an existing key keeps its position. *)
Definition odict (V : Type) : Type := list (string * V).

Fixpoint set {V : Type} (d : odict V) (k : string) (v : V) : odict V :=
  match d with
  | [] => [(k, v)]
  | (k', v') :: d' =>
      if String.eqb k' k then (k', v) :: d' else (k', v') :: set d' k v
  end.

Definition keys {V : Type} (d : odict V) : list string := map fst d.
Definition values {V : Type} (d : odict V) : list V := map snd d.

(** [d.get(k)] on a dict whose order is never observed (a Field Set). *)
Definition get (d : gmap string value) (k : string) : value :=
  match d !! k with
  | Some v => v
  | None => VNone
  end.

End PyDict.

(** ** Configuration and field map *)

Definition FIELDS_LIST : list string :=
  [ "record_id";
    "Startup name";
    "PH1_Constitution_Location";
    "date_sourced" ].

(** [{k: k for k in FIELDS_LIST}] *)
Definition FIELD_MAP : PyDict.odict string :=
  fold_left (fun d k => PyDict.set d k k) FIELDS_LIST [].

(** [", ".join(xs)] *)
Definition join (sep : string) (xs : list string) : string :=
  String.concat sep xs.

Definition NL : string := String (ascii_of_nat 10) EmptyString.

(** How an f-string prints a value read with [os.environ.get]. *)
Definition fstr (o : option string) : string :=
  match o with
  | Some s => s
  | None => "None"
  end.

Section Queries.

(** [PG_TABLE_NAME = os.environ.get("PG_TABLE_NAME")] *)
Variable PG_TABLE_NAME : option string.

Definition build_values_from_fields (fields : gmap string value) : list value :=
  map (fun at_name => PyDict.get fields at_name) (PyDict.keys FIELD_MAP).

Definition build_insert_query : string :=
  let cols := "airtable_id" :: PyDict.values FIELD_MAP in
  let col_list := join ", " cols in
  let placeholders := join ", " (repeat "%s" (length cols)) in
  NL +:+ "        INSERT INTO " +:+ fstr PG_TABLE_NAME +:+ " (" +:+ col_list +:+ ")" +:+
  NL +:+ "        VALUES (" +:+ placeholders +:+ ")" +:+
  NL +:+ "    ".

Definition build_update_query : string :=
  let set_clause :=
    join ", " (map (fun col => col +:+ " = %s") (PyDict.values FIELD_MAP)) in
  NL +:+ "        UPDATE " +:+ fstr PG_TABLE_NAME +:+
  NL +:+ "        SET " +:+ set_clause +:+
  NL +:+ "        WHERE airtable_id = %s" +:+
  NL +:+ "    ".

Definition select_query : string :=
  "SELECT * FROM " +:+ fstr PG_TABLE_NAME +:+ " WHERE airtable_id = %s".

End Queries.

(** ** The database behind a psycopg2 connection

    Postgres and psycopg2 are not part of the repository; this is the model
    of them the proofs are relative to.  A table is the list of its rows, a
    row maps column names to values (what [RealDictCursor] hands back).  An
    exception is represented by its class and its message. *)

Definition table : Type := list (gmap string value).

Inductive exn : Type :=
  | IndexError (msg : string)
  | TypeError (msg : string)
  | ValueError (msg : string)
  | InterfaceError (msg : string)
  | DatabaseError (msg : string)
  | ProgrammingError (msg : string)
  | HTTPException (status_code : nat) (detail : string).

(** [str(e)] *)
Definition str (e : exn) : string :=
  match e with
  | IndexError msg | TypeError msg | ValueError msg
  | InterfaceError msg | DatabaseError msg | ProgrammingError msg => msg
  | HTTPException _ detail => detail
  end.

(** What a statement text means to the server. *)
Inductive stmt : Type :=
  | SSelect (where_col : string)
  | SInsert (cols : list string)
  | SUpdate (set_cols : list string) (where_col : string).

(** The server, as far as the program can tell it from another: whether it
    refuses the connection ([srv_connect], the message of the refusal), how
    it reads a statement text ([None]: it rejects the text with a syntax
    error), and which round trips of a connection fail for a reason of the
    server's own (constraint violation, lost connectivity, type mismatch),
    counted from 0 in the order the connection makes them; a round trip is
    a statement execution, a commit or a rollback. *)
Record server : Type := {
  srv_connect : option string;
  srv_reads : string -> option stmt;
  srv_fault : nat -> option string
}.

(** [EExecute q ps]: the program has reached [cur.execute(q, ps)] (on a
    closed connection: the [conn.cursor()] just before it). *)
Inductive event : Type :=
  | EExecute (query : string) (params : list value)
  | ECommit
  | ERollback
  | EClose.

(** A connection with autocommit off: [persisted] is the committed table,
    [txn] the table as the open transaction sees it, [trace] the calls the
    program made on the connection, oldest first. *)
Record conn : Type := {
  persisted : table;
  txn : table;
  closed : bool;
  clock : nat;
  trace : list event
}.

(** SQL [=]: never true when a side is NULL. *)
Definition sql_eq (a b : value) : bool :=
  match a, b with
  | VNone, _ => false
  | _, VNone => false
  | _, _ => value_eqb a b
  end.

(** A column of a row; a column the row does not carry reads as NULL. *)
Definition col (r : gmap string value) (c : string) : value :=
  match r !! c with
  | Some v => v
  | None => VNone
  end.

Definition assign (cols : list string) (vals : list value)
    (r : gmap string value) : gmap string value :=
  list_to_map (zip cols vals) ∪ r.

(** The effect of a statement on the table and the rows it returns; [None]
    when the parameters do not fit the statement. *)
Definition run_stmt (st : stmt) (params : list value) (t : table)
    : option (table * list (gmap string value)) :=
  match st with
  | SSelect wc =>
      match params with
      | [v] => Some (t, List.filter (fun r => sql_eq (col r wc) v) t)
      | _ => None
      end
  | SInsert cols =>
      if Nat.eqb (length cols) (length params)
      then Some (t ++ [assign cols params ∅], [])
      else None
  | SUpdate cols wc =>
      match drop (length cols) params with
      | [v] =>
          let vals := take (length cols) params in
          if Nat.eqb (length vals) (length cols)
          then Some (map (fun r => if sql_eq (col r wc) v
                                   then assign cols vals r else r) t, [])
          else None
      | _ => None
      end
  end.

(** The number of arguments psycopg2's [%] formatting of a statement
    consumes: one per [%s]; [%%] is a literal percent sign; [None] for any
    other use of [%]. *)
Fixpoint placeholders (q : string) : option nat :=
  match q with
  | EmptyString => Some 0
  | String c r =>
      if Ascii.eqb c "%" then
        match r with
        | String d r' =>
            if Ascii.eqb d "s" then option_map S (placeholders r')
            else if Ascii.eqb d "%" then placeholders r'
            else None
        | EmptyString => None
        end
      else placeholders r
  end.

Fixpoint has_nul (s : string) : bool :=
  match s with
  | EmptyString => false
  | String c r => Ascii.eqb c (ascii_of_nat 0) || has_nul r
  end.

(** psycopg2 turning one Python value into an SQL literal: the exception it
    raises, if any.  A dict has no adapter, a string with a NUL character is
    refused, a list is adapted item by item. *)
Fixpoint adapt (v : value) : option exn :=
  match v with
  | VStr s =>
      if has_nul s
      then Some (ValueError "A string literal cannot contain NUL (0x00) characters.")
      else None
  | VDict _ => Some (ProgrammingError "can't adapt type 'dict'")
  | VList items =>
      (fix go (l : list value) : option exn :=
         match l with
         | [] => None
         | x :: l' =>
             match adapt x with
             | Some e => Some e
             | None => go l'
             end
         end) items
  | _ => None
  end.

(** The client side of [cur.execute]: for each of the [n] placeholders, in
    order, the next parameter is fetched and adapted; parameters that are
    left over are an error. *)
Fixpoint mogrify (n : nat) (params : list value) : option exn :=
  match n, params with
  | O, [] => None
  | O, _ :: _ =>
      Some (TypeError "not all arguments converted during string formatting")
  | S _, [] => Some (IndexError "tuple index out of range")
  | S n', v :: vs =>
      match adapt v with
      | Some e => Some e
      | None => mogrify n' vs
      end
  end.

(** ** The monad of code that uses a connection *)

Definition M (A : Type) : Type := conn -> (exn + A) * conn.

Definition ret {A : Type} (a : A) : M A := fun c => (inr a, c).

Definition raise {A : Type} (e : exn) : M A := fun c => (inl e, c).

Definition bind {A B : Type} (m : M A) (k : A -> M B) : M B :=
  fun c =>
    match m c with
    | (inr a, c') => k a c'
    | (inl e, c') => (inl e, c')
    end.

Notation "'let*' x ':=' m 'in' k" := (bind m (fun x => k))
  (at level 10, x pattern, m at level 100, k at level 200).

(** [try: body  except Exception as e: handler(e)  finally: final] *)
Definition try_except_finally {A : Type}
    (body : M A) (handler : exn -> M A) (final : M unit) : M A :=
  fun c =>
    let '(r, c1) :=
      match body c with
      | (inr a, c') => (inr a, c')
      | (inl e, c') => handler e c'
      end in
    match final c1 with
    | (inr _, c2) => (r, c2)
    | (inl e', c2) => (inl e', c2)
    end.

Definition log (ev : event) (c : conn) : conn :=
  {| persisted := persisted c; txn := txn c; closed := closed c;
     clock := clock c; trace := trace c ++ [ev] |}.

(** One more round trip to the server. *)
Definition tick (c : conn) : conn :=
  {| persisted := persisted c; txn := txn c; closed := closed c;
     clock := S (clock c); trace := trace c |}.

Section Connection.

Variable srv : server.

(** [cur.execute(query, params)], returning the result set. *)
Definition cursor_execute (query : string) (params : list value)
    : M (list (gmap string value)) :=
  fun c0 =>
    let c := log (EExecute query params) c0 in
    if closed c then (inl (InterfaceError "connection already closed"), c) else
    match placeholders query with
    | None => (inl (ValueError "unsupported format character"), c)
    | Some n =>
        match mogrify n params with
        | Some e => (inl e, c)
        | None =>
            let c' := tick c in
            match srv_fault srv (clock c) with
            | Some msg => (inl (DatabaseError msg), c')
            | None =>
                match srv_reads srv query with
                | None => (inl (ProgrammingError "syntax error"), c')
                | Some st =>
                    match run_stmt st params (txn c') with
                    | None => (inl (ProgrammingError "wrong number of parameters"), c')
                    | Some (t', rows) =>
                        (inr rows,
                         {| persisted := persisted c'; txn := t';
                            closed := closed c'; clock := clock c';
                            trace := trace c' |})
                    end
                end
            end
        end
    end.

(** [cur.fetchone()] *)
Definition fetchone (rows : list (gmap string value))
    : option (gmap string value) :=
  head rows.

(** [conn.commit()]: it can fail like any round trip, and then nothing is
    committed. *)
Definition commit : M unit :=
  fun c0 =>
    let c := log ECommit c0 in
    if closed c then (inl (InterfaceError "connection already closed"), c) else
    match srv_fault srv (clock c) with
    | Some msg => (inl (DatabaseError msg), tick c)
    | None =>
        (inr tt, {| persisted := txn c; txn := txn c; closed := closed c;
                    clock := S (clock c); trace := trace c |})
    end.

(** [conn.rollback()]: on a connection that is lost it raises as well. *)
Definition rollback : M unit :=
  fun c0 =>
    let c := log ERollback c0 in
    if closed c then (inl (InterfaceError "connection already closed"), c) else
    match srv_fault srv (clock c) with
    | Some msg => (inl (InterfaceError msg), tick c)
    | None =>
        (inr tt, {| persisted := persisted c; txn := persisted c;
                    closed := closed c; clock := S (clock c);
                    trace := trace c |})
    end.

End Connection.

(** [conn.close()]: what was not committed is dropped. *)
Definition close : M unit :=
  fun c0 =>
    let c := log EClose c0 in
    (inr tt, {| persisted := persisted c; txn := persisted c;
                closed := true; clock := clock c; trace := trace c |}).

(** A connection that has just been opened on a database whose committed
    table is [db]. *)
Definition fresh_conn (db : table) : conn :=
  {| persisted := db; txn := db; closed := false; clock := 0; trace := [] |}.

(** The database when no connection to it could be opened. *)
Definition unconnected (db : table) : conn :=
  {| persisted := db; txn := db; closed := true; clock := 0; trace := [] |}.

(** [psycopg2.connect(DATABASE_URL, ...)] *)
Definition get_conn (srv : server) (db : table) : exn + conn :=
  match srv_connect srv with
  | Some msg => inl (DatabaseError msg)
  | None => inr (fresh_conn db)
  end.

(** ** The program *)

Record AirtablePayload : Type := {
  id : string;
  fields : gmap string value
}.

(** What the caller of the endpoint receives: the success body, the body of
    an [HTTPException], or the bare 500 of an exception nothing handled. *)
Inductive response : Type :=
  | Success (action : string)
  | HttpError (status_code : nat) (detail : string)
  | InternalServerError.

Section Program.

Variable PG_TABLE_NAME : option string.
Variable srv : server.

Definition find_record_by_id (airtable_id : string)
    : M (option (gmap string value)) :=
  let* rows := cursor_execute srv (select_query PG_TABLE_NAME)
                 [VStr airtable_id] in
  let row := fetchone rows in
  ret row.

Definition create_record_in_postgres (airtable_id : string)
    (fields : gmap string value) : M unit :=
  let values := VStr airtable_id :: build_values_from_fields fields in
  let query := build_insert_query PG_TABLE_NAME in
  let* _ := cursor_execute srv query values in
  ret tt.

Definition update_record_in_postgres (airtable_id : string)
    (fields : gmap string value) : M unit :=
  let values := build_values_from_fields fields ++ [VStr airtable_id] in
  let query := build_update_query PG_TABLE_NAME in
  let* _ := cursor_execute srv query values in
  ret tt.

Definition sync_airtable_record (payload : AirtablePayload) : M string :=
  let airtable_id := id payload in
  let fields := fields payload in
  let* existing := find_record_by_id airtable_id in
  match existing with
  | None =>
      let* _ := create_record_in_postgres airtable_id fields in
      ret "created record"
  | Some _ =>
      let* _ := update_record_in_postgres airtable_id fields in
      ret "updated record"
  end.

(** The handler of [POST /airtable-webhook], run against the committed
    table [db]: the response, and the connection as the handler leaves it
    (the database alone when [get_conn] raised: that exception is outside
    the [try]). *)
Definition airtable_webhook (payload : AirtablePayload) (db : table)
    : response * conn :=
  match get_conn srv db with
  | inl _ => (InternalServerError, unconnected db)
  | inr conn =>
      let '(r, c) :=
        try_except_finally
          (let* action := sync_airtable_record payload in
           let* _ := commit srv in
           ret action)
          (fun e =>
             let* _ := rollback srv in
             raise (HTTPException 500 (str e)))
          close
          conn in
      match r with
      | inr action => (Success action, c)
      | inl (HTTPException status detail) => (HttpError status detail, c)
      | inl _ => (InternalServerError, c)
      end
  end.

End Program.

(** ** How PostgreSQL reads the three statements

    A reader for the statement shapes the program writes, with PostgreSQL's
    rules for names: an unquoted name is one word of letters, digits, [_]
    and [$], folded to lower case; a name with any other character in it (a
    blank, for one) has to be written between double quotes.  [%s] stands
    for the literal psycopg2 puts in its place. *)

Module Pg.

Inductive token : Type :=
  | TWord (w : string)
  | TQuoted (q : string)
  | TLParen
  | TRParen
  | TComma
  | TEq
  | TStar
  | TDot
  | TParam.

Inductive mode : Type :=
  | Idle
  | Word (w : string)
  | Quote (q : string).

Definition dquote : ascii := ascii_of_nat 34.

Definition is_space (c : ascii) : bool :=
  let n := nat_of_ascii c in
  Nat.eqb n 32 || Nat.eqb n 10 || Nat.eqb n 9 || Nat.eqb n 13.

Definition is_upper (c : ascii) : bool :=
  let n := nat_of_ascii c in Nat.leb 65 n && Nat.leb n 90.

Definition is_word_char (c : ascii) : bool :=
  let n := nat_of_ascii c in
  is_upper c || (Nat.leb 97 n && Nat.leb n 122) ||
  (Nat.leb 48 n && Nat.leb n 57) || Nat.eqb n 95 || Nat.eqb n 36.

Definition lower (c : ascii) : ascii :=
  if is_upper c then ascii_of_nat (nat_of_ascii c + 32) else c.

Definition symbol (c : ascii) : option token :=
  if Ascii.eqb c "(" then Some TLParen
  else if Ascii.eqb c ")" then Some TRParen
  else if Ascii.eqb c "," then Some TComma
  else if Ascii.eqb c "=" then Some TEq
  else if Ascii.eqb c "*" then Some TStar
  else if Ascii.eqb c "." then Some TDot
  else None.

Definition flush (m : mode) (ts : list token) : list token :=
  match m with
  | Word w => TWord w :: ts
  | _ => ts
  end.

Definition word_so_far (m : mode) : string :=
  match m with
  | Word w => w
  | _ => EmptyString
  end.

Fixpoint lex (s : string) (m : mode) : option (list token) :=
  match s with
  | EmptyString =>
      match m with
      | Quote _ => None
      | _ => Some (flush m [])
      end
  | String c r =>
      match m with
      | Quote q =>
          if Ascii.eqb c dquote
          then option_map (cons (TQuoted q)) (lex r Idle)
          else lex r (Quote (q +:+ String c EmptyString))
      | _ =>
          if is_word_char c
          then lex r (Word (word_so_far m +:+ String (lower c) EmptyString))
          else if is_space c then option_map (flush m) (lex r Idle)
          else if Ascii.eqb c dquote
          then option_map (flush m) (lex r (Quote EmptyString))
          else if Ascii.eqb c "%" then
            match r with
            | String d r' =>
                if Ascii.eqb d "s"
                then option_map (fun ts => flush m (TParam :: ts)) (lex r' Idle)
                else None
            | EmptyString => None
            end
          else
            match symbol c with
            | Some t => option_map (fun ts => flush m (t :: ts)) (lex r Idle)
            | None => None
            end
      end
  end.

Definition word_is (k : string) (t : token) : bool :=
  match t with
  | TWord w => String.eqb w k
  | _ => false
  end.

Definition name (t : token) : option string :=
  match t with
  | TWord w => Some w
  | TQuoted q => Some q
  | _ => None
  end.

(** A table name, plain or qualified by a schema; what follows it. *)
Definition table_name (ts : list token) : option (list token) :=
  match ts with
  | t :: TDot :: t' :: rest =>
      match name t, name t' with
      | Some _, Some _ => Some rest
      | _, _ => None
      end
  | t :: rest =>
      match name t with
      | Some _ => Some rest
      | None => None
      end
  | [] => None
  end.

(** [name, name, ... )] *)
Fixpoint name_list (ts : list token) : option (list string * list token) :=
  match ts with
  | t :: TComma :: rest =>
      match name t, name_list rest with
      | Some n, Some (ns, rest') => Some (n :: ns, rest')
      | _, _ => None
      end
  | t :: TRParen :: rest =>
      match name t with
      | Some n => Some ([n], rest)
      | None => None
      end
  | _ => None
  end.

(** [%s, %s, ... )] *)
Fixpoint param_list (ts : list token) : option (nat * list token) :=
  match ts with
  | TParam :: TComma :: rest =>
      match param_list rest with
      | Some (n, rest') => Some (S n, rest')
      | None => None
      end
  | TParam :: TRParen :: rest => Some (1, rest)
  | _ => None
  end.

(** [name = %s, name = %s, ...] *)
Fixpoint assign_list (ts : list token) : option (list string * list token) :=
  match ts with
  | t :: TEq :: TParam :: TComma :: rest =>
      match name t, assign_list rest with
      | Some n, Some (ns, rest') => Some (n :: ns, rest')
      | _, _ => None
      end
  | t :: TEq :: TParam :: rest =>
      match name t with
      | Some n => Some ([n], rest)
      | None => None
      end
  | _ => None
  end.

(** [WHERE name = %s] and nothing after it. *)
Definition where_clause (ts : list token) : option string :=
  match ts with
  | [kw; c; TEq; TParam] => if word_is "where" kw then name c else None
  | _ => None
  end.

Definition parse_select (ts : list token) : option stmt :=
  match ts with
  | TStar :: kw :: rest =>
      if word_is "from" kw then
        match table_name rest with
        | Some rest' => option_map SSelect (where_clause rest')
        | None => None
        end
      else None
  | _ => None
  end.

Definition parse_insert (ts : list token) : option stmt :=
  match ts with
  | kw :: rest =>
      if word_is "into" kw then
        match table_name rest with
        | Some (TLParen :: rest1) =>
            match name_list rest1 with
            | Some (cols, kw' :: TLParen :: rest2) =>
                if word_is "values" kw' then
                  match param_list rest2 with
                  | Some (n, []) =>
                      if Nat.eqb n (length cols) then Some (SInsert cols)
                      else None
                  | _ => None
                  end
                else None
            | _ => None
            end
        | _ => None
        end
      else None
  | [] => None
  end.

Definition parse_update (ts : list token) : option stmt :=
  match table_name ts with
  | Some (kw :: rest) =>
      if word_is "set" kw then
        match assign_list rest with
        | Some (cols, rest') =>
            match where_clause rest' with
            | Some wc => Some (SUpdate cols wc)
            | None => None
            end
        | None => None
        end
      else None
  | _ => None
  end.

Definition parse (q : string) : option stmt :=
  match lex q Idle with
  | Some (kw :: ts) =>
      if word_is "select" kw then parse_select ts
      else if word_is "insert" kw then parse_insert ts
      else if word_is "update" kw then parse_update ts
      else None
  | _ => None
  end.

(** A server that reads statements this way; [connect] and [fault] say
    where it fails. *)
Definition server (connect : option string) (fault : nat -> option string)
    : server :=
  {| srv_connect := connect; srv_reads := parse; srv_fault := fault |}.

End Pg.

(** ** Vocabulary of the statements *)

(** The row carries the identifier [airtable_id] (what the [WHERE] clause of
    the lookup and of the update tests). *)
Definition has_id (airtable_id : string) (r : gmap string value) : bool :=
  sql_eq (col r "airtable_id") (VStr airtable_id).

(** The row that the INSERT of [create_record_in_postgres] spells. *)
Definition new_row (airtable_id : string) (fields : gmap string value)
    : gmap string value :=
  assign ("airtable_id" :: PyDict.values FIELD_MAP)
         (VStr airtable_id :: build_values_from_fields fields) ∅.

(** What the UPDATE of [update_record_in_postgres] spells for one row. *)
Definition overwrite (airtable_id : string) (fields : gmap string value)
    (r : gmap string value) : gmap string value :=
  if has_id airtable_id r
  then assign (PyDict.values FIELD_MAP) (build_values_from_fields fields) r
  else r.

Fixpoint no_percent (s : string) : bool :=
  match s with
  | EmptyString => true
  | String c r => negb (Ascii.eqb c "%") && no_percent r
  end.

(** The configured table name is free of [%], so that the only placeholders
    of a statement are the ones the builders write. *)
Definition plain (PG_TABLE_NAME : option string) : Prop :=
  no_percent (fstr PG_TABLE_NAME) = true.

(** The server reads the lookup as it is spelled, or rejects it. *)
Definition reads_lookup (PG_TABLE_NAME : option string) (srv : server) : Prop :=
  srv_reads srv (select_query PG_TABLE_NAME) = Some (SSelect "airtable_id") \/
  srv_reads srv (select_query PG_TABLE_NAME) = None.

(** The server reads each of the three statement texts of the program as it
    is spelled, or rejects it. *)
Definition reads_or_rejects (PG_TABLE_NAME : option string) (srv : server)
    : Prop :=
  reads_lookup PG_TABLE_NAME srv /\
  (srv_reads srv (build_insert_query PG_TABLE_NAME)
   = Some (SInsert ("airtable_id" :: PyDict.values FIELD_MAP)) \/
   srv_reads srv (build_insert_query PG_TABLE_NAME) = None) /\
  (srv_reads srv (build_update_query PG_TABLE_NAME)
   = Some (SUpdate (PyDict.values FIELD_MAP) "airtable_id") \/
   srv_reads srv (build_update_query PG_TABLE_NAME) = None).

(** The exceptions of psycopg2's [%] formatting when the parameters do not
    fit the placeholders of the statement. *)
Definition arity_failure {A : Type} (r : exn + A) : Prop :=
  match r with
  | inl (IndexError _) | inl (TypeError _) => True
  | inl (ValueError msg) => msg = "unsupported format character"
  | _ => False
  end.

(** ** A concrete deployment, used to run the model *)

Module Demo.

Definition PG_TABLE_NAME : option string := Some "startups".

(** No round trip fails. *)
Definition no_fault : nat -> option string := fun _ => None.

(** The round trip number [n] fails. *)
Definition fault_at (n : nat) (msg : string) : nat -> option string :=
  fun k => if Nat.eqb k n then Some msg else None.

(** The connection is lost: every round trip fails. *)
Definition lost : nat -> option string :=
  fun _ => Some "server closed the connection unexpectedly".

(** PostgreSQL, reachable and without failures. *)
Definition srv : server := Pg.server None no_fault.

Definition acme : AirtablePayload :=
  {| id := "rec1";
     fields := <["Startup name" := VStr "Acme"]>
                 (<["date_sourced" := VStr "2024-01-01"]> ∅) |}.

(** A row for [rec1], stored by other means. *)
Definition acme_row : gmap string value :=
  <["airtable_id" := VStr "rec1"]>
    (<["record_id" := VNone]>
       (<["Startup name" := VStr "Acme"]>
          (<["PH1_Constitution_Location" := VNone]>
             (<["date_sourced" := VStr "2024-01-01"]> ∅)))).

(** A Field Set that has the key [record_id], with a JSON [null]. *)
Definition null_fields : gmap string value := {["record_id" := VNone]}.

(** A later payload for [rec1] that no longer carries [date_sourced]. *)
Definition renamed : AirtablePayload :=
  {| id := "rec1"; fields := {["Startup name" := VStr "Acme Corp"]} |}.

Definition other_row : gmap string value :=
  <["airtable_id" := VStr "rec0"]> (<["Startup name" := VStr "Zeta"]> ∅).

(** The example payload's Field Set with an unmapped key added. *)
Definition acme_and_name : gmap string value :=
  <["Name" := VStr "Carlos"]> (fields acme).

(** The INSERT text as it would read with the second mapped column between
    double quotes. *)
Definition quoted_insert : string :=
  NL +:+ "        INSERT INTO startups (airtable_id, record_id, " +:+
  String Pg.dquote "Startup name" +:+ String Pg.dquote EmptyString +:+
  ", PH1_Constitution_Location, date_sourced)" +:+
  NL +:+ "        VALUES (%s, %s, %s, %s, %s)" +:+
  NL +:+ "    ".

End Demo.

(** ** Vocabulary of the further properties *)

(** [{k: k for k in names}], for any list of names. *)
Definition field_map (names : list string) : PyDict.odict string :=
  fold_left (fun d k => PyDict.set d k k) names [].

(** No identifier is carried by two rows. *)
Definition unique_ids (t : table) : Prop :=
  forall airtable_id, length (List.filter (has_id airtable_id) t) <= 1.

(** The committed table after a series of requests, each served by its own
    connection to a server of its own (the failures may differ from one
    request to the next). *)
Fixpoint deliveries (PG_TABLE_NAME : option string)
    (reqs : list (server * AirtablePayload)) (db : table) : table :=
  match reqs with
  | [] => db
  | (srv, payload) :: rest =>
      deliveries PG_TABLE_NAME rest
        (persisted (snd (airtable_webhook PG_TABLE_NAME srv payload db)))
  end.

(** * Properties *)

(** ** The field map *)

Lemma FIELD_MAP_keys : PyDict.keys FIELD_MAP = FIELDS_LIST.
Proof. reflexivity. Qed.

Lemma FIELD_MAP_values : PyDict.values FIELD_MAP = FIELDS_LIST.
Proof. reflexivity. Qed.

Lemma get_agree (f1 f2 : gmap string value) (k : string) :
  f1 !! k = f2 !! k -> PyDict.get f1 k = PyDict.get f2 k.
Proof. unfold PyDict.get. now intros ->. Qed.

Lemma build_values_agree (f1 f2 : gmap string value) :
  (forall k, k ∈ PyDict.keys FIELD_MAP -> f1 !! k = f2 !! k) ->
  build_values_from_fields f1 = build_values_from_fields f2.
Proof.
  intros H. unfold build_values_from_fields.
  apply map_ext_in. intros k Hk. apply get_agree, H.
  now apply list_elem_of_In.
Qed.

(** ** Placeholders of the statements *)

Lemma placeholders_plain_prefix (t r : string) :
  no_percent t = true -> placeholders (t +:+ r) = placeholders r.
Proof.
  induction t as [|c t IH]; simpl; [reflexivity|].
  intros H. apply andb_prop in H as [Hc Ht].
  apply negb_true_iff in Hc. rewrite Hc. auto.
Qed.

Ltac count_placeholders H :=
  repeat (rewrite placeholders_plain_prefix by (exact H || reflexivity));
  reflexivity.

Lemma placeholders_select (PG : option string) :
  plain PG -> placeholders (select_query PG) = Some 1.
Proof. intros H. unfold select_query. count_placeholders H. Qed.

Lemma placeholders_insert (PG : option string) :
  plain PG -> placeholders (build_insert_query PG) = Some 5.
Proof. intros H. unfold build_insert_query. count_placeholders H. Qed.

Lemma placeholders_update (PG : option string) :
  plain PG -> placeholders (build_update_query PG) = Some 5.
Proof. intros H. unfold build_update_query. count_placeholders H. Qed.

(** ** One statement execution *)

(** An adaptation failure is not a failure of the [%] formatting. *)
Lemma adapt_not_arity (v : value) (e : exn) :
  adapt v = Some e -> ~ @arity_failure unit (inl e).
Proof.
  revert v e. fix IH 1. intros [ | b | z | bits | s | items | items] e;
    simpl; try discriminate.
  - destruct (has_nul s); [|discriminate]. intros [= <-]. simpl. discriminate.
  - induction items as [|x items IHitems]; [discriminate|].
    destruct (adapt x) as [e'|] eqn:Hx; [|exact IHitems].
    intros [= <-]. exact (IH x e' Hx).
  - intros [= <-]. simpl. tauto.
Qed.

Lemma mogrify_not_arity (ps : list value) (e : exn) :
  mogrify (length ps) ps = Some e -> ~ @arity_failure unit (inl e).
Proof.
  induction ps as [|v ps IH]; simpl; [discriminate|].
  destruct (adapt v) as [e'|] eqn:Hv; [|exact IH].
  intros [= <-]. now apply (adapt_not_arity v).
Qed.

(** Whatever happens, an execution touches neither the committed table nor
    the open flag, and appends its call to the trace; when it raises, the
    transaction's table is untouched, and the exception is not one of the
    [%] formatting when the parameters are as many as the placeholders; when
    it returns, the server has run the statement it read. *)
Lemma cursor_execute_frame (srv : server) (q : string) (ps : list value)
    (c : conn) :
  let '(r, c') := cursor_execute srv q ps c in
  persisted c' = persisted c /\ closed c' = closed c /\
  trace c' = trace c ++ [EExecute q ps] /\
  match r with
  | inl e =>
      txn c' = txn c /\
      (placeholders q = Some (length ps) -> ~ @arity_failure unit (inl e))
  | inr rows =>
      exists st, srv_reads srv q = Some st /\
                 run_stmt st ps (txn c) = Some (txn c', rows)
  end.
Proof.
  unfold cursor_execute. simpl.
  destruct (closed c) eqn:Hc; [simpl; now repeat split|].
  destruct (placeholders q) as [n|]; [|simpl; repeat split; easy].
  destruct (mogrify n ps) as [e|] eqn:Hm.
  { simpl. repeat split; try easy. intros [= ->].
    now apply (mogrify_not_arity ps). }
  destruct (srv_fault srv (clock c)); [simpl; now repeat split|].
  destruct (srv_reads srv q) as [st|]; [|simpl; now repeat split].
  simpl. destruct (run_stmt st ps (txn c)) as [[t' rows]|] eqn:Hs; simpl;
    [|now repeat split].
  do 3 (split; [easy|]). now exists st.
Qed.

(** What one execution can do when the server reads the statement as [st]
    or rejects it. *)
Lemma cursor_execute_reads (srv : server) (q : string) (ps : list value)
    (c : conn) (st : stmt) :
  srv_reads srv q = Some st \/ srv_reads srv q = None ->
  let '(r, c') := cursor_execute srv q ps c in
  persisted c' = persisted c /\ closed c' = closed c /\
  trace c' = trace c ++ [EExecute q ps] /\
  match r with
  | inl _ => txn c' = txn c
  | inr rows =>
      srv_reads srv q = Some st /\
      run_stmt st ps (txn c) = Some (txn c', rows)
  end.
Proof.
  intros Hst. pose proof (cursor_execute_frame srv q ps c) as H.
  destruct (cursor_execute srv q ps c) as [[e|rows] c'].
  - now destruct H as (? & ? & ? & ? & _).
  - destruct H as (? & ? & ? & st' & Hst' & Hrun).
    do 3 (split; [assumption|]).
    destruct Hst as [Hst|Hst]; rewrite Hst in Hst'; [|discriminate].
    injection Hst' as <-. now split.
Qed.

(** ** Commit, rollback, close *)

Lemma commit_frame (srv : server) (c : conn) :
  let '(r, c') := commit srv c in
  closed c' = closed c /\ trace c' = trace c ++ [ECommit] /\
  match r with
  | inl _ => persisted c' = persisted c /\ txn c' = txn c
  | inr _ => persisted c' = txn c /\ txn c' = txn c
  end.
Proof.
  unfold commit. simpl. destruct (closed c) eqn:Hc;
    [|destruct (srv_fault srv (clock c))]; simpl; rewrite ?Hc; now repeat split.
Qed.

Lemma rollback_frame (srv : server) (c : conn) :
  let '(r, c') := rollback srv c in
  closed c' = closed c /\ trace c' = trace c ++ [ERollback] /\
  persisted c' = persisted c /\
  match r with
  | inl (HTTPException _ _) => False
  | _ => True
  end.
Proof.
  unfold rollback. simpl. destruct (closed c) eqn:Hc;
    [|destruct (srv_fault srv (clock c))]; simpl; rewrite ?Hc; now repeat split.
Qed.

(** ** The handler, branch by branch *)

(** [try]/[except]/[finally] unfolded: what the handler answers and leaves,
    from what the orchestrator, the commit and the rollback did. *)
Lemma airtable_webhook_outcome (PG : option string) (srv : server)
    (payload : AirtablePayload) (db : table) :
  airtable_webhook PG srv payload db =
  match get_conn srv db with
  | inl _ => (InternalServerError, unconnected db)
  | inr c0 =>
      match sync_airtable_record PG srv payload c0 with
      | (inr action, c1) =>
          match commit srv c1 with
          | (inr _, c2) => (Success action, snd (close c2))
          | (inl e, c2) =>
              match rollback srv c2 with
              | (inr _, c3) => (HttpError 500 (str e), snd (close c3))
              | (inl _, c3) => (InternalServerError, snd (close c3))
              end
          end
      | (inl e, c1) =>
          match rollback srv c1 with
          | (inr _, c2) => (HttpError 500 (str e), snd (close c2))
          | (inl _, c2) => (InternalServerError, snd (close c2))
          end
      end
  end.
Proof.
  unfold airtable_webhook.
  destruct (get_conn srv db) as [e0|c0]; [reflexivity|].
  unfold try_except_finally, bind, ret, raise.
  destruct (sync_airtable_record PG srv payload c0) as [[e|a] c1].
  - pose proof (rollback_frame srv c1) as Hr.
    destruct (rollback srv c1) as [[e'|[]] c2]; simpl; [|reflexivity].
    destruct Hr as (_ & _ & _ & Hr). now destruct e'.
  - destruct (commit srv c1) as [[e|[]] c2]; simpl; [|reflexivity].
    pose proof (rollback_frame srv c2) as Hr.
    destruct (rollback srv c2) as [[e'|[]] c3]; simpl; [|reflexivity].
    destruct Hr as (_ & _ & _ & Hr). now destruct e'.
Qed.

(** ** Rows *)

Lemma lookup_zip_none (cols : list string) (vals : list value) (k : string) :
  k ∉ cols ->
  (list_to_map (zip cols vals) : gmap string value) !! k = None.
Proof.
  revert vals. induction cols as [|c cols IH]; intros vals Hk; [easy|].
  destruct vals as [|v vals]; [easy|]. simpl.
  apply not_elem_of_cons in Hk as [Hne Hk].
  rewrite lookup_insert_ne by congruence. now apply IH.
Qed.

Lemma assign_lookup_other (cols : list string) (vals : list value)
    (r : gmap string value) (k : string) :
  k ∉ cols -> assign cols vals r !! k = r !! k.
Proof.
  intros Hk. unfold assign.
  rewrite lookup_union_r; [reflexivity|]. now apply lookup_zip_none.
Qed.

Lemma airtable_id_not_mapped : "airtable_id" ∉ PyDict.values FIELD_MAP.
Proof.
  change (PyDict.values FIELD_MAP) with FIELDS_LIST. unfold FIELDS_LIST.
  intros H. repeat (apply elem_of_cons in H as [H|H]; [discriminate H|]).
  now apply elem_of_nil in H.
Qed.

Lemma sql_eq_str (a b : string) : sql_eq (VStr a) (VStr b) = String.eqb a b.
Proof. reflexivity. Qed.

Lemma new_row_lookup_id (airtable_id : string) (fields : gmap string value) :
  new_row airtable_id fields !! "airtable_id" = Some (VStr airtable_id).
Proof.
  unfold new_row, assign. apply lookup_union_Some_l. simpl.
  apply lookup_insert_eq.
Qed.

Lemma new_row_has_id (airtable_id : string) (fields : gmap string value) :
  has_id airtable_id (new_row airtable_id fields) = true.
Proof.
  unfold has_id, col. rewrite new_row_lookup_id, sql_eq_str.
  apply String.eqb_refl.
Qed.

Lemma overwrite_lookup_other (airtable_id : string)
    (fields r : gmap string value) (k : string) :
  k ∉ PyDict.values FIELD_MAP ->
  overwrite airtable_id fields r !! k = r !! k.
Proof.
  intros Hk. unfold overwrite.
  destruct (has_id airtable_id r); [|reflexivity].
  now apply assign_lookup_other.
Qed.

Lemma overwrite_has_id (airtable_id other : string)
    (fields r : gmap string value) :
  has_id other (overwrite airtable_id fields r) = has_id other r.
Proof.
  unfold has_id, col.
  now rewrite overwrite_lookup_other by apply airtable_id_not_mapped.
Qed.

Lemma sql_eq_str_inv (v : value) (s : string) :
  sql_eq v (VStr s) = true -> v = VStr s.
Proof.
  destruct v; simpl; try discriminate.
  intros H. apply String.eqb_eq in H. now subst.
Qed.

Lemma has_id_functional (a b : string) (r : gmap string value) :
  has_id a r = true -> has_id b r = true -> a = b.
Proof.
  unfold has_id. intros Ha Hb.
  apply sql_eq_str_inv in Ha. apply sql_eq_str_inv in Hb. congruence.
Qed.

Lemma new_row_has_other_id (airtable_id other : string)
    (fields : gmap string value) :
  has_id other (new_row airtable_id fields) = String.eqb airtable_id other.
Proof.
  unfold has_id, col. now rewrite new_row_lookup_id.
Qed.

Lemma filter_overwrite (airtable_id other : string)
    (fields : gmap string value) (t : table) :
  List.filter (has_id other) (map (overwrite airtable_id fields) t)
  = map (overwrite airtable_id fields) (List.filter (has_id other) t).
Proof.
  induction t as [|r t IH]; [reflexivity|]. simpl.
  rewrite overwrite_has_id. destruct (has_id other r); simpl; now rewrite IH.
Qed.

Lemma overwrite_other_id (airtable_id other : string)
    (fields : gmap string value) (t : table) :
  airtable_id <> other ->
  map (overwrite airtable_id fields) (List.filter (has_id other) t)
  = List.filter (has_id other) t.
Proof.
  intros Hne. induction t as [|r t IH]; [reflexivity|]. simpl.
  destruct (has_id other r) eqn:Hr; [|exact IH]. simpl. rewrite IH.
  unfold overwrite. destruct (has_id airtable_id r) eqn:Hr'; [|reflexivity].
  exfalso. apply Hne. now apply (has_id_functional _ _ r).
Qed.

(** ** The orchestrator and the handler, case by case *)

Section Reads.

Variable PG : option string.
Variable srv : server.

Lemma find_record_by_id_cases (airtable_id : string) (c : conn) :
  reads_lookup PG srv ->
  let '(r, c') := find_record_by_id PG srv airtable_id c in
  persisted c' = persisted c /\ closed c' = closed c /\ txn c' = txn c /\
  trace c' = trace c ++ [EExecute (select_query PG) [VStr airtable_id]] /\
  forall found, r = inr found ->
                found = head (List.filter (has_id airtable_id) (txn c)).
Proof.
  intros Hreads. unfold find_record_by_id, bind.
  pose proof (cursor_execute_reads srv (select_query PG) [VStr airtable_id] c
                (SSelect "airtable_id") Hreads) as H.
  destruct (cursor_execute srv (select_query PG) [VStr airtable_id] c)
    as [[e|rows] c']; destruct H as (Hp & Hc & Ht & H).
  - now repeat split.
  - destruct H as [_ H]. simpl in H. injection H as Htxn Hrows. unfold ret.
    repeat split; try easy. intros found [= <-]. now rewrite <- Hrows.
Qed.

Hypothesis Hreads : reads_or_rejects PG srv.

Lemma create_record_in_postgres_cases (airtable_id : string)
    (fields : gmap string value) (c : conn) :
  let '(r, c') := create_record_in_postgres PG srv airtable_id fields c in
  persisted c' = persisted c /\ closed c' = closed c /\
  trace c' = trace c ++
    [EExecute (build_insert_query PG)
       (VStr airtable_id :: build_values_from_fields fields)] /\
  match r with
  | inl _ => txn c' = txn c
  | inr _ =>
      txn c' = txn c ++ [new_row airtable_id fields] /\
      srv_reads srv (build_insert_query PG) <> None
  end.
Proof.
  unfold create_record_in_postgres, bind.
  match goal with |- context [cursor_execute srv ?q ?ps c] =>
    pose proof (cursor_execute_reads srv q ps c _ (proj1 (proj2 Hreads))) as H;
    destruct (cursor_execute srv q ps c) as [[e|rows] c']
  end; destruct H as (Hp & Hc & Ht & H); simpl.
  - now repeat split.
  - destruct H as [Hst H]. simpl in H. injection H as Htxn _.
    repeat split; try easy. now rewrite Hst.
Qed.

Lemma update_record_in_postgres_cases (airtable_id : string)
    (fields : gmap string value) (c : conn) :
  let '(r, c') := update_record_in_postgres PG srv airtable_id fields c in
  persisted c' = persisted c /\ closed c' = closed c /\
  trace c' = trace c ++
    [EExecute (build_update_query PG)
       (build_values_from_fields fields ++ [VStr airtable_id])] /\
  match r with
  | inl _ => txn c' = txn c
  | inr _ =>
      txn c' = map (overwrite airtable_id fields) (txn c) /\
      srv_reads srv (build_update_query PG) <> None
  end.
Proof.
  unfold update_record_in_postgres, bind.
  match goal with |- context [cursor_execute srv ?q ?ps c] =>
    pose proof (cursor_execute_reads srv q ps c _ (proj2 (proj2 Hreads))) as H;
    destruct (cursor_execute srv q ps c) as [[e|rows] c']
  end; destruct H as (Hp & Hc & Ht & H); simpl.
  - now repeat split.
  - destruct H as [Hst H]. simpl in H. injection H as Htxn _.
    repeat split; try easy. now rewrite Hst.
Qed.

(** The orchestrator: it raises and leaves the transaction's table alone,
    or it has inserted the row of a new identifier, or it has overwritten
    the rows of a known one. *)
Lemma sync_airtable_record_cases (payload : AirtablePayload) (c : conn) :
  let '(r, c') := sync_airtable_record PG srv payload c in
  persisted c' = persisted c /\ closed c' = closed c /\
  match r with
  | inl _ => txn c' = txn c
  | inr action =>
      (action = "created record" /\
       List.filter (has_id (id payload)) (txn c) = [] /\
       txn c' = txn c ++ [new_row (id payload) (fields payload)] /\
       srv_reads srv (build_insert_query PG) <> None) \/
      (action = "updated record" /\
       List.filter (has_id (id payload)) (txn c) <> [] /\
       txn c' = map (overwrite (id payload) (fields payload)) (txn c) /\
       srv_reads srv (build_update_query PG) <> None)
  end.
Proof.
  unfold sync_airtable_record, bind at 1.
  pose proof (find_record_by_id_cases (id payload) c (proj1 Hreads)) as H1.
  destruct (find_record_by_id PG srv (id payload) c) as [[e|found] c1];
    destruct H1 as (Hp1 & Hc1 & Ht1 & _ & Hf); [easy|].
  specialize (Hf found eq_refl).
  destruct found as [row|]; unfold bind.
  - pose proof (update_record_in_postgres_cases (id payload) (fields payload) c1)
      as H2.
    destruct (update_record_in_postgres PG srv (id payload) (fields payload) c1)
      as [[e|[]] c2]; destruct H2 as (Hp2 & Hc2 & _ & Ht2); simpl.
    + repeat split; congruence.
    + destruct Ht2 as [Ht2 Hst]. do 2 (split; [congruence|]). right.
      rewrite Ht2, Ht1. repeat split; [|exact Hst].
      intros Hnil. now rewrite Hnil in Hf.
  - pose proof (create_record_in_postgres_cases (id payload) (fields payload) c1)
      as H2.
    destruct (create_record_in_postgres PG srv (id payload) (fields payload) c1)
      as [[e|[]] c2]; destruct H2 as (Hp2 & Hc2 & _ & Ht2); simpl.
    + repeat split; congruence.
    + destruct Ht2 as [Ht2 Hst]. do 2 (split; [congruence|]). left.
      rewrite Ht2, Ht1. repeat split; [|exact Hst].
      destruct (List.filter (has_id (id payload)) (txn c)); [reflexivity|easy].
Qed.

(** The three ways a request can end: without a success and with the table
    as it was, with a created row, with the rows of the identifier
    overwritten. *)
Lemma airtable_webhook_cases (payload : AirtablePayload) (db : table) :
  let '(resp, c) := airtable_webhook PG srv payload db in
  ((forall action, resp <> Success action) /\ persisted c = db) \/
  (resp = Success "created record" /\
   List.filter (has_id (id payload)) db = [] /\
   persisted c = db ++ [new_row (id payload) (fields payload)] /\
   srv_reads srv (build_insert_query PG) <> None) \/
  (resp = Success "updated record" /\
   List.filter (has_id (id payload)) db <> [] /\
   persisted c = map (overwrite (id payload) (fields payload)) db /\
   srv_reads srv (build_update_query PG) <> None).
Proof.
  rewrite airtable_webhook_outcome. unfold get_conn.
  destruct (srv_connect srv); [left; now split|].
  pose proof (sync_airtable_record_cases payload (fresh_conn db)) as Hs.
  destruct (sync_airtable_record PG srv payload (fresh_conn db))
    as [[e|action] c1]; destruct Hs as (Hp1 & _ & Hs); simpl in Hp1.
  - pose proof (rollback_frame srv c1) as Hr.
    destruct (rollback srv c1) as [[e'|[]] c2];
      destruct Hr as (_ & _ & Hp2 & _); left; simpl; split;
      try congruence; discriminate.
  - pose proof (commit_frame srv c1) as Hc.
    destruct (commit srv c1) as [[e|[]] c2]; destruct Hc as (_ & _ & Hc).
    + destruct Hc as [Hp2 _].
      pose proof (rollback_frame srv c2) as Hr.
      destruct (rollback srv c2) as [[e'|[]] c3];
        destruct Hr as (_ & _ & Hp3 & _); left; simpl; split;
        try congruence; discriminate.
    + destruct Hc as [Hp2 _]. simpl. rewrite Hp2. simpl in Hs.
      destruct Hs as [(-> & Hn & -> & Hst)|(-> & Hn & -> & Hst)];
        [right; left|right; right]; now repeat split.
Qed.

End Reads.

(** * The properties of the specification *)

(** ** C2: the field mapper *)

(** C2, as amended.  For every Field Set the mapper returns one value per
    mapped field name, in the order of the mapping; the entry of a name is the
    Field Set's value under that key when it has the key (a value that may
    itself be null) and the null marker when it lacks the key, so an entry is
    null exactly when the key is missing or holds null.  The mapper is a total
    function: it raises for no Field Set. *)
Theorem C2_values_follow_the_mapping (fields : gmap string value) :
  build_values_from_fields fields = map (PyDict.get fields) FIELDS_LIST /\
  length (build_values_from_fields fields) = length FIELDS_LIST /\
  (forall (i : nat) (k : string),
      PyDict.keys FIELD_MAP !! i = Some k ->
      build_values_from_fields fields !! i
      = Some (match fields !! k with Some v => v | None => VNone end) /\
      (fields !! k = None ->
       build_values_from_fields fields !! i = Some VNone) /\
      (build_values_from_fields fields !! i = Some VNone <->
       fields !! k = None \/ fields !! k = Some VNone)).
Proof.
  split; [reflexivity|]. split; [reflexivity|].
  intros i k Hk.
  assert (Hi : build_values_from_fields fields !! i
               = Some (match fields !! k with Some v => v | None => VNone end)).
  { unfold build_values_from_fields. rewrite list_lookup_fmap, Hk.
    reflexivity. }
  split; [exact Hi|]. split.
  - intros Hnone. now rewrite Hi, Hnone.
  - rewrite Hi. destruct (fields !! k) as [v|].
    + split; [intros [= ->]; now right|]. intros [H|[= ->]]; easy.
    + split; [now left|reflexivity].
Qed.

(** C2, counterexample.  The Field Set [{"record_id": null}] has the key
    [record_id], and the entry of [record_id] is the null marker all the
    same: "null exactly when the key is lacking" fails from right to left. *)
Lemma C2_null_under_a_present_key :
  ~ (build_values_from_fields Demo.null_fields !! 0%nat = Some VNone <->
     Demo.null_fields !! "record_id" = None).
Proof.
  intros [H _]. specialize (H eq_refl).
  unfold Demo.null_fields in H. rewrite lookup_singleton_eq in H.
  discriminate H.
Qed.

(** ** C3: unmapped keys do not matter *)

(** C3.  Two Field Sets that agree on every mapped field name give the same
    value list, and [create] and [update] behave identically on them from any
    connection state: same statement text and same parameters in the trace,
    same outcome.  An extra unmapped key changes neither the value list nor
    the run of the orchestrator. *)
Theorem C3_only_mapped_keys_matter (PG : option string) (srv : server)
    (f1 f2 : gmap string value) (airtable_id : string) (c : conn) :
  (forall k, k ∈ PyDict.keys FIELD_MAP -> f1 !! k = f2 !! k) ->
  build_values_from_fields f1 = build_values_from_fields f2 /\
  create_record_in_postgres PG srv airtable_id f1 c
  = create_record_in_postgres PG srv airtable_id f2 c /\
  update_record_in_postgres PG srv airtable_id f1 c
  = update_record_in_postgres PG srv airtable_id f2 c /\
  sync_airtable_record PG srv {| id := airtable_id; fields := f1 |} c
  = sync_airtable_record PG srv {| id := airtable_id; fields := f2 |} c /\
  airtable_webhook PG srv {| id := airtable_id; fields := f1 |} (persisted c)
  = airtable_webhook PG srv {| id := airtable_id; fields := f2 |} (persisted c) /\
  (forall (k : string) (v : value),
      k ∉ PyDict.keys FIELD_MAP ->
      build_values_from_fields (<[k := v]> f1) = build_values_from_fields f1).
Proof.
  intros Hagree.
  pose proof (build_values_agree f1 f2 Hagree) as Hv.
  assert (Hc : forall c0, create_record_in_postgres PG srv airtable_id f1 c0
                          = create_record_in_postgres PG srv airtable_id f2 c0).
  { intros c0. unfold create_record_in_postgres. now rewrite Hv. }
  assert (Hu : forall c0, update_record_in_postgres PG srv airtable_id f1 c0
                          = update_record_in_postgres PG srv airtable_id f2 c0).
  { intros c0. unfold update_record_in_postgres. now rewrite Hv. }
  assert (Hs : forall c0,
             sync_airtable_record PG srv {| id := airtable_id; fields := f1 |} c0
             = sync_airtable_record PG srv {| id := airtable_id; fields := f2 |} c0).
  { intros c0. unfold sync_airtable_record, bind. simpl.
    destruct (find_record_by_id PG srv airtable_id c0) as [[e|[row|]] c1];
      [reflexivity| |]; now rewrite ?Hc, ?Hu. }
  repeat split; auto.
  - rewrite !airtable_webhook_outcome.
    destruct (get_conn srv (persisted c)) as [e0|c0]; [reflexivity|].
    now rewrite Hs.
  - intros k v Hk. apply build_values_agree. intros k' Hk'.
    apply lookup_insert_ne. now intros ->.
Qed.

(** ** C4: the two statements and their parameters *)

(** C4.  The INSERT text names the identifier column and then the mapped
    columns in mapping order, and carries one [%s] per column in that order;
    [create] executes it with [[identifier] + mapped_values].  The UPDATE
    text sets each mapped column to a [%s], in mapping order, and filters on
    the identifier column; [update] executes it with
    [mapped_values + [identifier]]. *)
Theorem C4_statements_and_parameters (PG : option string) (srv : server)
    (airtable_id : string) (fields : gmap string value) (c : conn) :
  build_insert_query PG
  = NL +:+ "        INSERT INTO " +:+ fstr PG +:+
    " (" +:+ join ", " ("airtable_id" :: FIELDS_LIST) +:+ ")" +:+
    NL +:+ "        VALUES (" +:+
    join ", " (map (fun _ => "%s") ("airtable_id" :: FIELDS_LIST)) +:+ ")" +:+
    NL +:+ "    " /\
  build_insert_query PG
  = NL +:+ "        INSERT INTO " +:+ fstr PG +:+
    " (airtable_id, record_id, Startup name, PH1_Constitution_Location, date_sourced)" +:+
    NL +:+ "        VALUES (%s, %s, %s, %s, %s)" +:+
    NL +:+ "    " /\
  trace (snd (create_record_in_postgres PG srv airtable_id fields c))
  = trace c ++ [EExecute (build_insert_query PG)
                  ([VStr airtable_id] ++ build_values_from_fields fields)] /\
  build_update_query PG
  = NL +:+ "        UPDATE " +:+ fstr PG +:+
    NL +:+ "        SET " +:+
    join ", " (map (fun c => c +:+ " = %s") FIELDS_LIST) +:+
    NL +:+ "        WHERE airtable_id = %s" +:+
    NL +:+ "    " /\
  build_update_query PG
  = NL +:+ "        UPDATE " +:+ fstr PG +:+
    NL +:+ "        SET record_id = %s, Startup name = %s, PH1_Constitution_Location = %s, date_sourced = %s" +:+
    NL +:+ "        WHERE airtable_id = %s" +:+
    NL +:+ "    " /\
  trace (snd (update_record_in_postgres PG srv airtable_id fields c))
  = trace c ++ [EExecute (build_update_query PG)
                  (build_values_from_fields fields ++ [VStr airtable_id])].
Proof.
  split; [reflexivity|]. split; [reflexivity|]. split.
  { unfold create_record_in_postgres, bind.
    match goal with |- context [cursor_execute srv ?q ?ps c] =>
      pose proof (cursor_execute_frame srv q ps c) as H;
      destruct (cursor_execute srv q ps c) as [[e|rs] c1]
    end; now destruct H as (_ & _ & Ht & _). }
  split; [reflexivity|]. split; [reflexivity|].
  unfold update_record_in_postgres, bind.
  match goal with |- context [cursor_execute srv ?q ?ps c] =>
    pose proof (cursor_execute_frame srv q ps c) as H;
    destruct (cursor_execute srv q ps c) as [[e|rs] c1]
  end; now destruct H as (_ & _ & Ht & _).
Qed.

(** ** C10: as many parameters as placeholders *)

(** C10.  With a table name free of [%], the INSERT text has
    [1 + number of mapped fields] placeholders and [create] passes that many
    parameters; the UPDATE text has [number of mapped fields + 1] placeholders
    and [update] passes that many; on any server and from any connection
    state, neither execution raises one of the formatting errors. *)
Theorem C10_parameters_fit_placeholders (PG : option string) (srv : server)
    (airtable_id : string) (fields : gmap string value) (c : conn) :
  plain PG ->
  placeholders (build_insert_query PG)
  = Some (1 + length (PyDict.keys FIELD_MAP)) /\
  length (VStr airtable_id :: build_values_from_fields fields)
  = 1 + length (PyDict.keys FIELD_MAP) /\
  placeholders (build_update_query PG)
  = Some (length (PyDict.keys FIELD_MAP) + 1) /\
  length (build_values_from_fields fields ++ [VStr airtable_id])
  = length (PyDict.keys FIELD_MAP) + 1 /\
  ~ arity_failure (fst (create_record_in_postgres PG srv airtable_id fields c)) /\
  ~ arity_failure (fst (update_record_in_postgres PG srv airtable_id fields c)).
Proof.
  intros Hplain.
  pose proof (placeholders_insert PG Hplain) as Hi.
  pose proof (placeholders_update PG Hplain) as Hu.
  split; [exact Hi|]. split; [reflexivity|].
  split; [exact Hu|]. split; [reflexivity|]. split.
  - unfold create_record_in_postgres, bind.
    match goal with |- context [cursor_execute srv ?q ?ps c] =>
      pose proof (cursor_execute_frame srv q ps c) as H;
      destruct (cursor_execute srv q ps c) as [[e|rs] c1]
    end; simpl; [|easy].
    destruct H as (_ & _ & _ & _ & He). specialize (He Hi).
    now destruct e.
  - unfold update_record_in_postgres, bind.
    match goal with |- context [cursor_execute srv ?q ?ps c] =>
      pose proof (cursor_execute_frame srv q ps c) as H;
      destruct (cursor_execute srv q ps c) as [[e|rs] c1]
    end; simpl; [|easy].
    destruct H as (_ & _ & _ & _ & He). specialize (He Hu).
    now destruct e.
Qed.

(** ** C9: the identifier column is never written by an update *)

(** C9.  The identifier column is not among the columns of the SET clause:
    it is not a mapped column, and the text of the clause does not contain
    its name.  On a server that reads the statements as they are spelled or
    rejects them, whatever the connection state, the identifier and the
    Field Set, and whether or not the execution fails, every row of the
    table has after [update] the value in its identifier column that it had
    before. *)
Theorem C9_identifier_column_is_kept (PG : option string) (srv : server)
    (airtable_id : string) (fields : gmap string value) (c : conn) :
  reads_or_rejects PG srv ->
  ("airtable_id" ∉ PyDict.values FIELD_MAP) /\
  build_update_query PG
  = NL +:+ "        UPDATE " +:+ fstr PG +:+
    NL +:+ "        SET " +:+
    join ", " (map (fun c => c +:+ " = %s") (PyDict.values FIELD_MAP)) +:+
    NL +:+ "        WHERE airtable_id = %s" +:+
    NL +:+ "    " /\
  String.index 0 "airtable_id"
    (join ", " (map (fun c => c +:+ " = %s") (PyDict.values FIELD_MAP))) = None /\
  Forall2 (fun r r' : gmap string value => r' !! "airtable_id" = r !! "airtable_id")
    (txn c)
    (txn (snd (update_record_in_postgres PG srv airtable_id fields c))) /\
  Forall2 (fun r r' : gmap string value => r' !! "airtable_id" = r !! "airtable_id")
    (persisted c)
    (persisted (snd (update_record_in_postgres PG srv airtable_id fields c))).
Proof.
  intros Hreads.
  split; [apply airtable_id_not_mapped|]. split; [reflexivity|].
  split; [reflexivity|].
  pose proof (update_record_in_postgres_cases PG srv Hreads airtable_id fields c)
    as H.
  destruct (update_record_in_postgres PG srv airtable_id fields c)
    as [[e|[]] c1]; destruct H as (Hp & _ & _ & H); simpl; rewrite Hp.
  - rewrite H. split; apply Forall2_same_length_lookup_2; try easy;
      intros i x y Hx Hy; congruence.
  - destruct H as [-> _]. split.
    + induction (txn c) as [|r t IH]; simpl; constructor; [|exact IH].
      apply (overwrite_lookup_other airtable_id fields r "airtable_id").
      apply airtable_id_not_mapped.
    + apply Forall2_same_length_lookup_2; [easy|].
      intros i x y Hx Hy. congruence.
Qed.

(** ** PostgreSQL and the two writes

    The INSERT and the UPDATE the builders write name the second mapped
    column as [Startup name], unquoted.  PostgreSQL reads that as two names
    in a row and rejects both statements. *)

Lemma postgres_reads_the_statements (connect : option string)
    (fault : nat -> option string) :
  srv_reads (Pg.server connect fault) (select_query Demo.PG_TABLE_NAME)
  = Some (SSelect "airtable_id") /\
  srv_reads (Pg.server connect fault) (build_insert_query Demo.PG_TABLE_NAME)
  = None /\
  srv_reads (Pg.server connect fault) (build_update_query Demo.PG_TABLE_NAME)
  = None.
Proof. repeat split; vm_compute; reflexivity. Qed.

Lemma postgres_reads_or_rejects (connect : option string)
    (fault : nat -> option string) :
  reads_or_rejects Demo.PG_TABLE_NAME (Pg.server connect fault).
Proof.
  destruct (postgres_reads_the_statements connect fault) as (Hs & Hi & Hu).
  repeat split; [now left|now right|now right].
Qed.

(** With either write rejected, no request succeeds and none changes the
    committed table. *)
Lemma postgres_never_succeeds (connect : option string)
    (fault : nat -> option string) (payload : AirtablePayload) (db : table) :
  let '(resp, c) :=
    airtable_webhook Demo.PG_TABLE_NAME (Pg.server connect fault) payload db in
  (forall action, resp <> Success action) /\ persisted c = db.
Proof.
  pose proof (airtable_webhook_cases Demo.PG_TABLE_NAME (Pg.server connect fault)
                (postgres_reads_or_rejects connect fault) payload db) as H.
  destruct (postgres_reads_the_statements connect fault) as (_ & Hi & Hu).
  destruct (airtable_webhook Demo.PG_TABLE_NAME (Pg.server connect fault)
              payload db) as [resp c].
  destruct H as [H|[(_ & _ & _ & H)|(_ & _ & _ & H)]]; [exact H| |];
    contradiction.
Qed.

(** The text with the name between double quotes is read as the INSERT it
    is meant to be. *)
Example quoted_insert_is_read :
  Pg.parse Demo.quoted_insert
  = Some (SInsert ["airtable_id"; "record_id"; "Startup name";
                   "ph1_constitution_location"; "date_sourced"]).
Proof. vm_compute. reflexivity. Qed.

(** ** C1: a new identifier *)

(** C1, on the code.  PostgreSQL rejects the INSERT text of the builder.
    For the example payload on an empty table, with the server reachable and
    nothing else failing, the handler looks the identifier up, finds no row,
    executes the INSERT, gets the syntax error, rolls back and answers the
    500 error; no row exists afterwards.  Whatever the payload, the table
    and the failures, no request is answered with a success and the
    committed table is the one the request started from. *)
Theorem C1_create_fails_on_postgres (connect : option string)
    (fault : nat -> option string) (payload : AirtablePayload) (db : table) :
  Pg.parse (build_insert_query Demo.PG_TABLE_NAME) = None /\
  airtable_webhook Demo.PG_TABLE_NAME Demo.srv Demo.acme []
  = (HttpError 500 "syntax error",
     {| persisted := []; txn := []; closed := true; clock := 3;
        trace := [EExecute (select_query Demo.PG_TABLE_NAME) [VStr "rec1"];
                  EExecute (build_insert_query Demo.PG_TABLE_NAME)
                    [VStr "rec1"; VNone; VStr "Acme"; VNone; VStr "2024-01-01"];
                  ERollback; EClose] |}) /\
  (forall action,
      fst (airtable_webhook Demo.PG_TABLE_NAME (Pg.server connect fault)
             payload db) <> Success action) /\
  persisted (snd (airtable_webhook Demo.PG_TABLE_NAME (Pg.server connect fault)
                    payload db)) = db.
Proof.
  split; [vm_compute; reflexivity|]. split; [vm_compute; reflexivity|].
  pose proof (postgres_never_succeeds connect fault payload db) as H.
  destruct (airtable_webhook Demo.PG_TABLE_NAME (Pg.server connect fault)
              payload db) as [resp c].
  exact H.
Qed.

(** ** C5: a known identifier *)

(** C5, on the code.  PostgreSQL rejects the UPDATE text of the builder.
    For a later payload of [rec1] on a table that holds a row of [rec1],
    with nothing else failing, the handler finds the row, executes the
    UPDATE, gets the syntax error, rolls back and answers the 500 error; the
    row keeps every value it had.  Whatever the payload, the table and the
    failures, every row of the committed table is after the request what it
    was before. *)
Theorem C5_update_fails_on_postgres (connect : option string)
    (fault : nat -> option string) (payload : AirtablePayload) (db : table) :
  Pg.parse (build_update_query Demo.PG_TABLE_NAME) = None /\
  airtable_webhook Demo.PG_TABLE_NAME Demo.srv Demo.renamed
    [Demo.acme_row; Demo.other_row]
  = (HttpError 500 "syntax error",
     {| persisted := [Demo.acme_row; Demo.other_row];
        txn := [Demo.acme_row; Demo.other_row];
        closed := true; clock := 3;
        trace := [EExecute (select_query Demo.PG_TABLE_NAME) [VStr "rec1"];
                  EExecute (build_update_query Demo.PG_TABLE_NAME)
                    [VNone; VStr "Acme Corp"; VNone; VNone; VStr "rec1"];
                  ERollback; EClose] |}) /\
  Forall2 eq db
    (persisted (snd (airtable_webhook Demo.PG_TABLE_NAME
                       (Pg.server connect fault) payload db))).
Proof.
  split; [vm_compute; reflexivity|]. split; [vm_compute; reflexivity|].
  pose proof (postgres_never_succeeds connect fault payload db) as H.
  destruct (airtable_webhook Demo.PG_TABLE_NAME (Pg.server connect fault)
              payload db) as [resp c].
  destruct H as [_ H]. simpl. rewrite H.
  apply Forall2_same_length_lookup_2; [reflexivity|congruence].
Qed.

(** ** C6: the example payload, sent twice *)

(** C6, on the code.  The example payload, sent twice to a reachable
    PostgreSQL on which nothing else fails, starting from the empty table:
    both calls are answered with the 500 error of the rejected INSERT (the
    second call finds no row either), and the table is empty after each. *)
Theorem C6_example_fails_twice_on_postgres :
  let '(resp1, c1) :=
    airtable_webhook Demo.PG_TABLE_NAME Demo.srv Demo.acme [] in
  let '(resp2, c2) :=
    airtable_webhook Demo.PG_TABLE_NAME Demo.srv Demo.acme (persisted c1) in
  resp1 = HttpError 500 "syntax error" /\
  persisted c1 = [] /\
  resp2 = HttpError 500 "syntax error" /\
  persisted c2 = [] /\
  trace c2 = [EExecute (select_query Demo.PG_TABLE_NAME) [VStr "rec1"];
              EExecute (build_insert_query Demo.PG_TABLE_NAME)
                [VStr "rec1"; VNone; VStr "Acme"; VNone; VStr "2024-01-01"];
              ERollback; EClose].
Proof. vm_compute. repeat split; reflexivity. Qed.

(** ** C8: an update that matches no row *)

(** C8, on the code.  On PostgreSQL, [update] called on an open connection
    whose table holds no row with the identifier, nothing else failing,
    raises the syntax error of the rejected UPDATE.  Whatever the connection
    state, the identifier, the Field Set and the failures, [update] raises
    and leaves the transaction's table and the committed table as they
    were. *)
Theorem C8_update_raises_on_postgres (connect : option string)
    (fault : nat -> option string) (airtable_id : string)
    (field_set : gmap string value) (c : conn) :
  update_record_in_postgres Demo.PG_TABLE_NAME Demo.srv "rec1"
    (fields Demo.acme) (fresh_conn [Demo.other_row])
  = (inl (ProgrammingError "syntax error"),
     {| persisted := [Demo.other_row]; txn := [Demo.other_row];
        closed := false; clock := 1;
        trace := [EExecute (build_update_query Demo.PG_TABLE_NAME)
                    [VNone; VStr "Acme"; VNone; VStr "2024-01-01"; VStr "rec1"]] |}) /\
  (exists e,
      fst (update_record_in_postgres Demo.PG_TABLE_NAME
             (Pg.server connect fault) airtable_id field_set c) = inl e) /\
  txn (snd (update_record_in_postgres Demo.PG_TABLE_NAME
              (Pg.server connect fault) airtable_id field_set c)) = txn c /\
  persisted (snd (update_record_in_postgres Demo.PG_TABLE_NAME
                    (Pg.server connect fault) airtable_id field_set c))
  = persisted c.
Proof.
  split; [vm_compute; reflexivity|].
  pose proof (update_record_in_postgres_cases Demo.PG_TABLE_NAME
                (Pg.server connect fault)
                (postgres_reads_or_rejects connect fault) airtable_id field_set c)
    as H.
  destruct (postgres_reads_the_statements connect fault) as (_ & _ & Hu).
  destruct (update_record_in_postgres Demo.PG_TABLE_NAME
              (Pg.server connect fault) airtable_id field_set c) as [[e|[]] c1];
    destruct H as (Hp & _ & _ & H); simpl.
  - split; [now exists e|]. now split.
  - destruct H as [_ H]. contradiction.
Qed.

(** ** C7: commit, rollback and close *)

(** On any server, the orchestrator leaves the committed table and the open
    flag alone; it makes the lookup and then at most one write, and a label
    it returns is the label of the write it made. *)
Lemma sync_frame (PG : option string) (srv : server)
    (payload : AirtablePayload) (c : conn) :
  let sel := EExecute (select_query PG) [VStr (id payload)] in
  let ins := EExecute (build_insert_query PG)
               (VStr (id payload) :: build_values_from_fields (fields payload)) in
  let upd := EExecute (build_update_query PG)
               (build_values_from_fields (fields payload) ++ [VStr (id payload)]) in
  let '(r, c') := sync_airtable_record PG srv payload c in
  persisted c' = persisted c /\ closed c' = closed c /\
  ((trace c' = trace c ++ [sel] /\ exists e, r = inl e) \/
   (trace c' = trace c ++ [sel; ins] /\
    (r = inr "created record" \/ exists e, r = inl e)) \/
   (trace c' = trace c ++ [sel; upd] /\
    (r = inr "updated record" \/ exists e, r = inl e))).
Proof.
  intros sel ins upd.
  unfold sync_airtable_record, find_record_by_id, create_record_in_postgres,
    update_record_in_postgres, bind, ret.
  pose proof (cursor_execute_frame srv (select_query PG)
                [VStr (id payload)] c) as H1.
  destruct (cursor_execute srv (select_query PG) [VStr (id payload)] c)
    as [[e|rows] c1]; destruct H1 as (Hp1 & Hc1 & Ht1 & _).
  { do 2 (split; [easy|]). left. split; [exact Ht1|eauto]. }
  destruct (fetchone rows) as [row|].
  - match goal with |- context [cursor_execute srv ?q ?ps c1] =>
      pose proof (cursor_execute_frame srv q ps c1) as H2;
      destruct (cursor_execute srv q ps c1) as [[e|rs] c2]
    end; destruct H2 as (Hp2 & Hc2 & Ht2 & _);
      (do 2 (split; [congruence|])); right; right;
      (split; [rewrite Ht2, Ht1, <- app_assoc; reflexivity|eauto]).
  - match goal with |- context [cursor_execute srv ?q ?ps c1] =>
      pose proof (cursor_execute_frame srv q ps c1) as H2;
      destruct (cursor_execute srv q ps c1) as [[e|rs] c2]
    end; destruct H2 as (Hp2 & Hc2 & Ht2 & _);
      (do 2 (split; [congruence|])); right; left;
      (split; [rewrite Ht2, Ht1, <- app_assoc; reflexivity|eauto]).
Qed.

(** C7, as amended.  On any server and for any payload.  When no connection
    could be opened the caller gets the bare 500 and the table is untouched.
    Otherwise the handler leaves the connection closed, [close] being its
    last call, and: when the orchestrator raises [e], the handler calls
    [rollback], the committed table is the one the request started from,
    and if the rollback returns the response is the 500 error whose detail
    is [str(e)]; when the orchestrator returns, the handler calls [commit];
    if the commit returns, the committed table is the transaction's table
    and the response is the success with the orchestrator's label; if the
    commit raises [e], the handler calls [rollback], the committed table is
    the one the request started from, and if the rollback returns the
    response is the 500 error whose detail is [str(e)]. *)
Theorem C7_commit_rollback_close (PG : option string) (srv : server)
    (payload : AirtablePayload) (db : table) :
  let '(resp, c) := airtable_webhook PG srv payload db in
  match get_conn srv db with
  | inl _ => resp = InternalServerError /\ persisted c = db /\ trace c = []
  | inr c0 =>
      closed c = true /\
      last (trace c) = Some EClose /\
      match sync_airtable_record PG srv payload c0 with
      | (inl e, c1) =>
          persisted c = db /\
          trace c = trace c1 ++ [ERollback; EClose] /\
          (forall c2, rollback srv c1 = (inr tt, c2) ->
                      resp = HttpError 500 (str e))
      | (inr action, c1) =>
          match commit srv c1 with
          | (inr _, _) =>
              resp = Success action /\
              persisted c = txn c1 /\
              trace c = trace c1 ++ [ECommit; EClose]
          | (inl e, c2) =>
              persisted c = db /\
              trace c = trace c1 ++ [ECommit; ERollback; EClose] /\
              (forall c3, rollback srv c2 = (inr tt, c3) ->
                          resp = HttpError 500 (str e))
          end
      end
  end.
Proof.
  rewrite airtable_webhook_outcome. unfold get_conn.
  destruct (srv_connect srv); [now repeat split|].
  pose proof (sync_frame PG srv payload (fresh_conn db)) as Hs.
  destruct (sync_airtable_record PG srv payload (fresh_conn db))
    as [[e|action] c1]; destruct Hs as (Hp1 & _ & _); simpl in Hp1.
  - pose proof (rollback_frame srv c1) as Hr.
    destruct (rollback srv c1) as [[e'|[]] c2];
      destruct Hr as (_ & Ht2 & Hp2 & _); simpl; rewrite Ht2, <- app_assoc;
      (split; [reflexivity|]);
      (split; [change [ERollback; EClose] with ([ERollback] ++ [EClose]);
               rewrite app_assoc; apply last_snoc|]);
      (split; [congruence|]); (split; [reflexivity|]); intros c3 [=].
    reflexivity.
  - pose proof (commit_frame srv c1) as Hc.
    destruct (commit srv c1) as [[e|[]] c2]; destruct Hc as (_ & Ht2 & Hc).
    + destruct Hc as [Hp2 _].
      pose proof (rollback_frame srv c2) as Hr.
      destruct (rollback srv c2) as [[e'|[]] c3];
        destruct Hr as (_ & Ht3 & Hp3 & _); simpl;
        rewrite Ht3, Ht2, <- !app_assoc;
        (split; [reflexivity|]);
        (split; [change ([ECommit] ++ [ERollback] ++ [EClose])
                   with ([ECommit; ERollback] ++ [EClose]);
                 rewrite app_assoc; apply last_snoc|]);
        (split; [congruence|]); (split; [reflexivity|]); intros c4 [=].
      reflexivity.
    + destruct Hc as [Hp2 _]. simpl. rewrite Ht2, <- app_assoc.
      split; [reflexivity|]. split; [|now repeat split].
      change ([ECommit] ++ [EClose]) with ([ECommit; EClose]).
      change [ECommit; EClose] with ([ECommit] ++ [EClose]).
      rewrite app_assoc. apply last_snoc.
Qed.

(** C7, counterexample.  The connection to PostgreSQL is lost while the
    request is served: the lookup raises with the server's message, the
    rollback that the handler then calls raises as well, and the caller gets
    the bare 500, not the 500 that carries the message of the lookup. *)
Lemma C7_lost_connection_hides_the_message :
  fst (sync_airtable_record Demo.PG_TABLE_NAME (Pg.server None Demo.lost)
         Demo.acme (fresh_conn []))
  = inl (DatabaseError "server closed the connection unexpectedly") /\
  fst (airtable_webhook Demo.PG_TABLE_NAME (Pg.server None Demo.lost)
         Demo.acme [])
  = InternalServerError /\
  fst (airtable_webhook Demo.PG_TABLE_NAME (Pg.server None Demo.lost)
         Demo.acme [])
  <> HttpError 500 (str (DatabaseError "server closed the connection unexpectedly")).
Proof.
  split; [vm_compute; reflexivity|]. split; [vm_compute; reflexivity|].
  vm_compute. discriminate.
Qed.

(** * Further properties of the code *)

(** ** X4: the rows of the other records *)

(** X4.  On a server that reads the statements as they are spelled or
    rejects them, whatever fails: a request leaves every row that does not
    carry the payload's identifier as it was and where it was among such
    rows; in particular the rows of any other identifier are the same before
    and after. *)
Theorem X4_other_rows_are_kept (PG : option string) (srv : server)
    (payload : AirtablePayload) (db : table) :
  reads_or_rejects PG srv ->
  let c := snd (airtable_webhook PG srv payload db) in
  List.filter (fun r => negb (has_id (id payload) r)) (persisted c)
  = List.filter (fun r => negb (has_id (id payload) r)) db /\
  (forall other, other <> id payload ->
     List.filter (has_id other) (persisted c) = List.filter (has_id other) db).
Proof.
  intros Hreads.
  pose proof (airtable_webhook_cases PG srv Hreads payload db) as H.
  destruct (airtable_webhook PG srv payload db) as [resp c]. simpl.
  destruct H as [[_ ->]|[(_ & Hnone & -> & _)|(_ & Hsome & -> & _)]]; [easy| |].
  - split.
    + rewrite List.filter_app. simpl. rewrite new_row_has_id. simpl.
      apply app_nil_r.
    + intros other Hne. rewrite List.filter_app. simpl.
      rewrite new_row_has_other_id.
      destruct (String.eqb_spec (id payload) other) as [Heq|_];
        [congruence|apply app_nil_r].
  - split.
    + clear Hsome. induction db as [|r t IH]; [reflexivity|]. simpl.
      rewrite overwrite_has_id.
      destruct (has_id (id payload) r) eqn:Hr; simpl; [exact IH|].
      rewrite IH. unfold overwrite. now rewrite Hr.
    + intros other Hne. rewrite filter_overwrite.
      apply overwrite_other_id. congruence.
Qed.

(** ** X5: one row per identifier, kept by every series of requests *)

Lemma airtable_webhook_keeps_unique_ids (PG : option string) (srv : server)
    (payload : AirtablePayload) (db : table) :
  reads_or_rejects PG srv -> unique_ids db ->
  unique_ids (persisted (snd (airtable_webhook PG srv payload db))).
Proof.
  intros Hreads Huniq.
  pose proof (airtable_webhook_cases PG srv Hreads payload db) as H.
  destruct (airtable_webhook PG srv payload db) as [resp c]. simpl.
  destruct H as [[_ ->]|[(_ & Hnone & -> & _)|(_ & Hsome & -> & _)]]; [exact Huniq| |];
    intros other.
  - rewrite List.filter_app, length_app. simpl.
    rewrite new_row_has_other_id.
    destruct (String.eqb_spec (id payload) other) as [<-|_]; simpl.
    + rewrite Hnone. simpl. lia.
    + specialize (Huniq other). lia.
  - rewrite filter_overwrite, length_map. apply Huniq.
Qed.

(** X5.  When every server of a series of requests reads the statements as
    they are spelled or rejects them (each may fail where it wants), a table
    in which no identifier has two rows is still such a table after the
    series; so is the empty table. *)
Theorem X5_deliveries_keep_unique_ids (PG : option string)
    (reqs : list (server * AirtablePayload)) (db : table) :
  Forall (fun rq => reads_or_rejects PG (fst rq)) reqs ->
  unique_ids db ->
  unique_ids (deliveries PG reqs db) /\
  unique_ids (deliveries PG reqs []).
Proof.
  intros Hall Huniq.
  assert (Hgen : forall t, unique_ids t -> unique_ids (deliveries PG reqs t)).
  { clear Huniq db. induction Hall as [|[srv payload] rest Hsrv _ IH];
      intros t Ht; [exact Ht|].
    simpl. apply IH. now apply airtable_webhook_keeps_unique_ids. }
  split; apply Hgen; [exact Huniq|]. intros other. simpl. lia.
Qed.

(** ** X9: the dictionary comprehension of the field map *)

Lemma set_keys_in {V : Type} (d : PyDict.odict V) (k : string) (v : V) :
  k ∈ PyDict.keys d -> PyDict.keys (PyDict.set d k v) = PyDict.keys d.
Proof.
  induction d as [|[k' v'] d IH]; simpl; intros Hk.
  - now apply elem_of_nil in Hk.
  - destruct (String.eqb_spec k' k) as [->|Hne]; [reflexivity|]. simpl.
    f_equal. apply IH. apply elem_of_cons in Hk as [Hk|Hk]; [congruence|easy].
Qed.

Lemma set_keys_notin {V : Type} (d : PyDict.odict V) (k : string) (v : V) :
  k ∉ PyDict.keys d -> PyDict.keys (PyDict.set d k v) = PyDict.keys d ++ [k].
Proof.
  induction d as [|[k' v'] d IH]; simpl; intros Hk; [reflexivity|].
  apply not_elem_of_cons in Hk as [Hne Hk].
  destruct (String.eqb_spec k' k) as [->|_]; [congruence|]. simpl.
  f_equal. now apply IH.
Qed.

Lemma set_identity (d : PyDict.odict string) (k : string) :
  Forall (fun p => fst p = snd p) d ->
  Forall (fun p => fst p = snd p) (PyDict.set d k k).
Proof.
  induction d as [|[k' v'] d IH]; simpl; intros Hd.
  - now repeat constructor.
  - apply Forall_cons in Hd as [Hk Hd].
    destruct (String.eqb_spec k' k) as [->|_]; constructor; auto.
Qed.

Lemma identity_keys_values (d : PyDict.odict string) :
  Forall (fun p => fst p = snd p) d -> PyDict.keys d = PyDict.values d.
Proof.
  unfold PyDict.keys, PyDict.values.
  induction 1 as [|[k v] d Hk _ IH]; simpl in *; [reflexivity|].
  now rewrite Hk, IH.
Qed.

Lemma comprehension_invariant (names : list string) (d : PyDict.odict string) :
  let d' := fold_left (fun d k => PyDict.set d k k) names d in
  (Forall (fun p => fst p = snd p) d -> Forall (fun p => fst p = snd p) d') /\
  (NoDup (PyDict.keys d) -> NoDup (PyDict.keys d')) /\
  (forall k, k ∈ PyDict.keys d' <-> k ∈ PyDict.keys d \/ k ∈ names) /\
  (NoDup (PyDict.keys d ++ names) -> PyDict.keys d' = PyDict.keys d ++ names).
Proof.
  revert d. induction names as [|n names IH]; intros d; simpl.
  - repeat split; auto.
    + intros [H|H]; [exact H|now apply elem_of_nil in H].
    + intros _. now rewrite app_nil_r.
  - destruct (IH (PyDict.set d n n)) as (I1 & I2 & I3 & I4).
    destruct (decide (n ∈ PyDict.keys d)) as [Hin|Hnin].
    + rewrite (set_keys_in d n n Hin) in I2, I3, I4.
      split; [intros H; now apply I1, set_identity|].
      split; [exact I2|]. split.
      * intros k. rewrite I3, elem_of_cons.
        split; [tauto|]. intros [H|[->|H]]; tauto.
      * intros Hnd. exfalso.
        apply NoDup_app in Hnd as (_ & Hdis & _).
        apply (Hdis n Hin). now left.
    + rewrite (set_keys_notin d n n Hnin) in I2, I3, I4.
      split; [intros H; now apply I1, set_identity|]. split.
      * intros Hnd. apply I2. apply NoDup_app.
        repeat split; [exact Hnd| |apply NoDup_singleton].
        intros x Hx Hx'. apply list_elem_of_singleton in Hx'. now subst.
      * split.
        -- intros k. rewrite I3, elem_of_app, list_elem_of_singleton, elem_of_cons.
           tauto.
        -- intros Hnd. rewrite <- app_assoc in I4. apply I4. exact Hnd.
Qed.

(** X9.  For any list of field names, [{k: k for k in names}] maps each key
    to itself, so its keys (what the mapper reads) and its values (the column
    names of the statements) are the same list; that list has no duplicate,
    holds exactly the names, and is the list of names itself, in its order,
    when the names are distinct.  [FIELD_MAP] is this dictionary for
    [FIELDS_LIST], whose names are distinct. *)
Theorem X9_field_map_is_the_identity (names : list string) :
  PyDict.keys (field_map names) = PyDict.values (field_map names) /\
  NoDup (PyDict.keys (field_map names)) /\
  (forall k, k ∈ PyDict.keys (field_map names) <-> k ∈ names) /\
  (NoDup names -> PyDict.keys (field_map names) = names) /\
  FIELD_MAP = field_map FIELDS_LIST /\
  NoDup FIELDS_LIST.
Proof.
  destruct (comprehension_invariant names []) as (I1 & I2 & I3 & I4).
  simpl in *. fold (field_map names) in *.
  split; [|split; [|split; [|split; [|split]]]].
  - apply identity_keys_values, I1. constructor.
  - apply I2. constructor.
  - intros k. rewrite I3. split; [intros [H|H]|]; auto.
    now apply elem_of_nil in H.
  - exact I4.
  - reflexivity.
  - apply (bool_decide_unpack (NoDup FIELDS_LIST)). vm_compute. exact I.
Qed.

(** ** X11: no request removes a row *)

(** X11.  On servers that read the statements as they are spelled or reject
    them, whatever fails: after a series of requests the committed table has
    at least as many rows as it had and at most one more per request (for
    one request: as many as before, or one more). *)
Theorem X11_rows_are_never_removed (PG : option string)
    (reqs : list (server * AirtablePayload)) (db : table) :
  Forall (fun rq => reads_or_rejects PG (fst rq)) reqs ->
  length db <= length (deliveries PG reqs db) <= length db + length reqs.
Proof.
  intros Hall.
  assert (Hstep : forall srv payload t,
             reads_or_rejects PG srv ->
             length t
             <= length (persisted (snd (airtable_webhook PG srv payload t)))
             <= S (length t)).
  { intros srv payload t Hreads.
    pose proof (airtable_webhook_cases PG srv Hreads payload t) as H.
    destruct (airtable_webhook PG srv payload t) as [resp c]. simpl.
    destruct H as [[_ ->]|[(_ & _ & -> & _)|(_ & _ & -> & _)]].
    - lia.
    - rewrite length_app. simpl. lia.
    - rewrite length_map. lia. }
  revert db. induction Hall as [|[srv payload] rest Hsrv _ IH]; intros db;
    simpl; [lia|].
  specialize (IH (persisted (snd (airtable_webhook PG srv payload db)))).
  specialize (Hstep srv payload db Hsrv). lia.
Qed.

(** ** X1: the lookup *)

Lemma head_filter_member {A : Type} (f : A -> bool) (l : list A) :
  match head (List.filter f l) with
  | None => Forall (fun x => f x = false) l
  | Some x => In x l /\ f x = true
  end.
Proof.
  destruct (List.filter f l) as [|x rest] eqn:Hf; simpl.
  - apply List.Forall_forall. intros x Hx.
    destruct (f x) eqn:Hfx; [|reflexivity].
    assert (Hin : In x (List.filter f l)) by (apply filter_In; now split).
    rewrite Hf in Hin. destruct Hin.
  - apply filter_In. rewrite Hf. now left.
Qed.

(** X1.  On a server that reads the lookup as it is spelled or rejects it,
    whatever fails: [find_record_by_id] changes neither the transaction's
    table nor the committed one; a row it returns is a row of the table that
    carries the identifier; it returns [None] only when no row of the table
    carries the identifier. *)
Theorem X1_lookup_answers_a_matching_row (PG : option string) (srv : server)
    (airtable_id : string) (c : conn) :
  reads_lookup PG srv ->
  let '(r, c') := find_record_by_id PG srv airtable_id c in
  txn c' = txn c /\ persisted c' = persisted c /\
  match r with
  | inl _ => True
  | inr None => Forall (fun row => has_id airtable_id row = false) (txn c)
  | inr (Some row) => In row (txn c) /\ has_id airtable_id row = true
  end.
Proof.
  intros Hreads.
  pose proof (find_record_by_id_cases PG srv airtable_id c Hreads) as H.
  destruct (find_record_by_id PG srv airtable_id c) as [[e|found] c'];
    destruct H as (Hp & _ & Ht & _ & Hf); [easy|].
  do 2 (split; [easy|]). rewrite (Hf found eq_refl).
  apply (head_filter_member (has_id airtable_id) (txn c)).
Qed.

(** ** X8: the calls of one request *)


(** ** X10: the message of a failing lookup *)

Lemma cursor_execute_fault (srv : server) (q : string) (ps : list value)
    (c : conn) (msg : string) :
  closed c = false ->
  placeholders q = Some (length ps) ->
  mogrify (length ps) ps = None ->
  srv_fault srv (clock c) = Some msg ->
  cursor_execute srv q ps c
  = (inl (DatabaseError msg),
     {| persisted := persisted c; txn := txn c; closed := false;
        clock := S (clock c); trace := trace c ++ [EExecute q ps] |}).
Proof.
  intros Hc Hp Hm Hf. unfold cursor_execute. simpl.
  rewrite Hc, Hp, Hm. simpl. rewrite Hf.
  unfold tick, log. simpl. now rewrite Hc.
Qed.

(** X10.  With a table name free of [%], a connection that could be opened
    and an identifier without a NUL character: when the server fails the
    lookup with the message [msg], the committed table is the one the
    request started from; if the rollback that follows goes through, the
    request is answered by the 500 error whose detail is [msg], word for
    word; if the rollback fails as well, the answer is the bare 500. *)
Theorem X10_message_of_a_failing_lookup (PG : option string)
    (srv : server) (payload : AirtablePayload) (db : table) (msg : string) :
  plain PG ->
  srv_connect srv = None ->
  has_nul (id payload) = false ->
  srv_fault srv 0 = Some msg ->
  persisted (snd (airtable_webhook PG srv payload db)) = db /\
  (srv_fault srv 1 = None ->
   fst (airtable_webhook PG srv payload db) = HttpError 500 msg) /\
  (srv_fault srv 1 <> None ->
   fst (airtable_webhook PG srv payload db) = InternalServerError).
Proof.
  intros Hplain Hconn Hnul Hfault.
  assert (Hsync : sync_airtable_record PG srv payload (fresh_conn db)
                  = (inl (DatabaseError msg),
                     {| persisted := db; txn := db; closed := false;
                        clock := 1;
                        trace := [EExecute (select_query PG)
                                    [VStr (id payload)]] |})).
  { unfold sync_airtable_record, find_record_by_id, bind.
    rewrite (cursor_execute_fault srv _ _ (fresh_conn db) msg);
      [reflexivity|reflexivity|now apply placeholders_select
       |simpl; now rewrite Hnul|exact Hfault]. }
  rewrite !airtable_webhook_outcome. unfold get_conn.
  rewrite Hconn, Hsync. unfold rollback. simpl.
  destruct (srv_fault srv 1) as [m|]; simpl;
    (split; [reflexivity|]); split; intros H;
    first [reflexivity | discriminate H | now destruct H].
Qed.

(** * The theorems at the concrete deployment *)

(** C3 at a concrete input: the example Field Set, with and without an
    unmapped key. *)
Lemma C3_only_mapped_keys_matter_witness :
  (forall k, k ∈ PyDict.keys FIELD_MAP ->
             fields Demo.acme !! k = Demo.acme_and_name !! k) /\
  build_values_from_fields (fields Demo.acme)
  = build_values_from_fields Demo.acme_and_name.
Proof.
  assert (H : forall k, k ∈ PyDict.keys FIELD_MAP ->
                        fields Demo.acme !! k = Demo.acme_and_name !! k).
  { intros k Hk. unfold Demo.acme_and_name. symmetry.
    apply lookup_insert_ne. intros <-. revert Hk.
    apply (bool_decide_unpack ("Name" ∉ PyDict.keys FIELD_MAP)).
    vm_compute. exact I. }
  split; [exact H|].
  exact (proj1 (C3_only_mapped_keys_matter Demo.PG_TABLE_NAME Demo.srv
                  (fields Demo.acme) Demo.acme_and_name "rec1"
                  (fresh_conn []) H)).
Defined.

(** C9 at a concrete input: an update of the row of [rec1] on PostgreSQL. *)
Lemma C9_identifier_column_is_kept_witness :
  reads_or_rejects Demo.PG_TABLE_NAME Demo.srv /\
  Forall2 (fun r r' : gmap string value => r' !! "airtable_id" = r !! "airtable_id")
    (txn (fresh_conn [Demo.acme_row]))
    (txn (snd (update_record_in_postgres Demo.PG_TABLE_NAME Demo.srv "rec1"
                 (fields Demo.renamed) (fresh_conn [Demo.acme_row])))).
Proof.
  assert (Hr : reads_or_rejects Demo.PG_TABLE_NAME Demo.srv)
    by (repeat split; vm_compute; auto).
  split; [exact Hr|].
  exact (proj1 (proj2 (proj2 (proj2
           (C9_identifier_column_is_kept Demo.PG_TABLE_NAME Demo.srv "rec1"
              (fields Demo.renamed) (fresh_conn [Demo.acme_row]) Hr))))).
Defined.

(** C10 at a concrete input: the table name [startups]. *)
Lemma C10_parameters_fit_placeholders_witness :
  plain Demo.PG_TABLE_NAME /\
  placeholders (build_insert_query Demo.PG_TABLE_NAME) = Some 5 /\
  length (VStr "rec1" :: build_values_from_fields (fields Demo.acme)) = 5.
Proof.
  assert (Hp : plain Demo.PG_TABLE_NAME) by reflexivity.
  split; [exact Hp|].
  pose proof (C10_parameters_fit_placeholders Demo.PG_TABLE_NAME Demo.srv
                "rec1" (fields Demo.acme) (fresh_conn []) Hp) as H.
  split; apply H.
Defined.

(** X1 at a concrete input: the lookup of [rec1] behind another record. *)
Lemma X1_lookup_answers_a_matching_row_witness :
  reads_lookup Demo.PG_TABLE_NAME Demo.srv /\
  txn (snd (find_record_by_id Demo.PG_TABLE_NAME Demo.srv "rec1"
              (fresh_conn [Demo.other_row; Demo.acme_row])))
  = txn (fresh_conn [Demo.other_row; Demo.acme_row]).
Proof.
  assert (Hr : reads_lookup Demo.PG_TABLE_NAME Demo.srv)
    by (left; vm_compute; reflexivity).
  split; [exact Hr|].
  pose proof (X1_lookup_answers_a_matching_row Demo.PG_TABLE_NAME Demo.srv
                "rec1" (fresh_conn [Demo.other_row; Demo.acme_row]) Hr) as H.
  destruct (find_record_by_id Demo.PG_TABLE_NAME Demo.srv "rec1"
              (fresh_conn [Demo.other_row; Demo.acme_row])) as [r c'].
  apply H.
Defined.

(** X4 at a concrete input: a request for [rec1] beside the row of [rec0]. *)
Lemma X4_other_rows_are_kept_witness :
  reads_or_rejects Demo.PG_TABLE_NAME Demo.srv /\
  List.filter (has_id "rec0")
    (persisted (snd (airtable_webhook Demo.PG_TABLE_NAME Demo.srv Demo.renamed
                       [Demo.acme_row; Demo.other_row])))
  = List.filter (has_id "rec0") [Demo.acme_row; Demo.other_row].
Proof.
  assert (Hr : reads_or_rejects Demo.PG_TABLE_NAME Demo.srv)
    by (repeat split; vm_compute; auto).
  split; [exact Hr|].
  apply (proj2 (X4_other_rows_are_kept Demo.PG_TABLE_NAME Demo.srv Demo.renamed
                  [Demo.acme_row; Demo.other_row] Hr)).
  discriminate.
Defined.

(** X5 at a concrete input: two requests for [rec1], the second on a lost
    connection. *)
Lemma X5_deliveries_keep_unique_ids_witness :
  Forall (fun rq => reads_or_rejects Demo.PG_TABLE_NAME (fst rq))
    [(Demo.srv, Demo.acme); (Pg.server None Demo.lost, Demo.renamed)] /\
  unique_ids [] /\
  unique_ids (deliveries Demo.PG_TABLE_NAME
                [(Demo.srv, Demo.acme); (Pg.server None Demo.lost, Demo.renamed)]
                []).
Proof.
  assert (Hall : Forall (fun rq => reads_or_rejects Demo.PG_TABLE_NAME (fst rq))
                   [(Demo.srv, Demo.acme);
                    (Pg.server None Demo.lost, Demo.renamed)])
    by (repeat constructor; vm_compute; auto).
  assert (Hnil : unique_ids []) by (intros other; simpl; lia).
  split; [exact Hall|]. split; [exact Hnil|].
  apply (X5_deliveries_keep_unique_ids Demo.PG_TABLE_NAME _ [] Hall Hnil).
Defined.

(** X10 at a concrete input: the lookup fails, the rollback goes through. *)
Lemma X10_message_of_a_failing_lookup_witness :
  plain Demo.PG_TABLE_NAME /\
  srv_connect (Pg.server None (Demo.fault_at 0 "timeout")) = None /\
  has_nul (id Demo.acme) = false /\
  srv_fault (Pg.server None (Demo.fault_at 0 "timeout")) 0 = Some "timeout" /\
  persisted (snd (airtable_webhook Demo.PG_TABLE_NAME
                    (Pg.server None (Demo.fault_at 0 "timeout")) Demo.acme
                    [Demo.other_row]))
  = [Demo.other_row].
Proof.
  do 4 (split; [reflexivity|]).
  apply (X10_message_of_a_failing_lookup Demo.PG_TABLE_NAME
           (Pg.server None (Demo.fault_at 0 "timeout")) Demo.acme
           [Demo.other_row] "timeout"); reflexivity.
Defined.

(** X11 at a concrete input: two requests on the empty table. *)
Lemma X11_rows_are_never_removed_witness :
  Forall (fun rq => reads_or_rejects Demo.PG_TABLE_NAME (fst rq))
    [(Demo.srv, Demo.acme); (Pg.server None Demo.lost, Demo.renamed)] /\
  length (deliveries Demo.PG_TABLE_NAME
            [(Demo.srv, Demo.acme); (Pg.server None Demo.lost, Demo.renamed)]
            []) <= 2.
Proof.
  assert (Hall : Forall (fun rq => reads_or_rejects Demo.PG_TABLE_NAME (fst rq))
                   [(Demo.srv, Demo.acme);
                    (Pg.server None Demo.lost, Demo.renamed)])
    by (repeat constructor; vm_compute; auto).
  split; [exact Hall|].
  apply (X11_rows_are_never_removed Demo.PG_TABLE_NAME _ [] Hall).
Defined.

(** * Runs of the model *)

(** The lookup fails on the server and the rollback goes through: the
    caller gets the 500 with the server's message. *)
Example failed_lookup_is_reported :
  airtable_webhook Demo.PG_TABLE_NAME
    (Pg.server None (Demo.fault_at 0 "timeout")) Demo.acme [Demo.other_row]
  = (HttpError 500 "timeout",
     {| persisted := [Demo.other_row]; txn := [Demo.other_row];
        closed := true; clock := 2;
        trace := [EExecute (select_query Demo.PG_TABLE_NAME) [VStr "rec1"];
                  ERollback; EClose] |}).
Proof. vm_compute. reflexivity. Qed.

(** The server refuses the connection: the bare 500, and no call at all. *)
Example refused_connection :
  airtable_webhook Demo.PG_TABLE_NAME
    (Pg.server (Some "connection refused") Demo.no_fault) Demo.acme
    [Demo.other_row]
  = (InternalServerError, unconnected [Demo.other_row]).
Proof. reflexivity. Qed.

(** A Field Set with a JSON object under a mapped key: psycopg2 has no
    adapter for it, the INSERT raises before anything is sent. *)
Example object_value_is_not_adapted :
  fst (create_record_in_postgres Demo.PG_TABLE_NAME Demo.srv "rec1"
         {["Startup name" := VDict [("en", VStr "Acme")]]} (fresh_conn []))
  = inl (ProgrammingError "can't adapt type 'dict'").
Proof. vm_compute. reflexivity. Qed.

(** A table name that carries a [%s] of its own: the lookup then has two
    placeholders for one parameter and psycopg2 raises. *)
Example percent_in_table_name :
  placeholders (build_insert_query (Some "%s")) = Some 6 /\
  fst (airtable_webhook (Some "%s") Demo.srv Demo.acme [])
  = HttpError 500 "tuple index out of range".
Proof. split; vm_compute; reflexivity. Qed.
